(** * Discord rich-presence client (src/discord/discordrpc.{h,cpp})

    A shallow embedding of [discord::DiscordRPC]: the frame codec of the
    local IPC protocol, the connection state machine, the reconnect
    scheduler and the construction of the [SET_ACTIVITY] command.

    The object is a record of its member fields; every member function is a
    function on that record.  What Qt contributes (the local socket, the
    single-shot timer, the JSON text codec, the process environment) is not
    part of the repository: it is modelled by small records and by a
    [World] of answers the surroundings give. *)

From Stdlib Require Import ZArith List String Ascii Lia Bool.
From Stdlib Require Import Init.Byte Numbers.DecimalString Numbers.DecimalZ.
From stdpp Require Import gmap strings list fin_maps.

Open Scope Z_scope.

(** ** Fixed-width integers

    [quint32] is an unsigned 32-bit integer, [int] a signed one.  Both are
    carried as [Z]; every conversion and every operation that can leave the
    range has its wrap-around written out.  Converting a [quint32] to
    [int] keeps the bit pattern.  An [int] sum that overflows is undefined
    in C++; the model takes the two's-complement result.  The statements
    on complete frames bound the payload so that no sum overflows, and the
    stored delay is shown never to leave the range where doubling it is
    exact. *)

Definition wrap_quint32 (z : Z) : Z := z mod 2 ^ 32.

Definition wrap_int (z : Z) : Z := (z + 2 ^ 31) mod 2 ^ 32 - 2 ^ 31.

(** ** Byte arrays

    A [QByteArray] is a list of bytes.  [size], [mid] and [remove] take and
    return 64-bit signed sizes ([qsizetype]), here [Z]. *)

Abbreviation QByteArray := (list byte) (only parsing).

Module QByteArray.

Definition size (b : QByteArray) : Z := Z.of_nat (length b).

(** [mid(pos, len)]: at most [len] bytes starting at [pos]; a negative
    [len], or one reaching past the end, means "up to the end". *)
Definition mid (b : QByteArray) (pos len : Z) : QByteArray :=
  let avail := Z.max 0 (size b - pos) in
  let n := if len <? 0 then avail else Z.min len avail in
  take (Z.to_nat n) (drop (Z.to_nat pos) b).

(** [remove(pos, len)] for [pos = 0], the only use: the first [len] bytes
    go, all of them when [len] reaches past the end, none when
    [len <= 0]. *)
Definition remove_front (b : QByteArray) (len : Z) : QByteArray :=
  drop (Z.to_nat (Z.min len (size b))) b.

End QByteArray.

Definition byte_of_Z (z : Z) : byte :=
  match Byte.of_N (Z.to_N (z mod 256)) with
  | Some b => b
  | None => x00
  end.

Definition Z_of_byte (b : byte) : Z := Z.of_N (Byte.to_N b).

(** [frame.append(reinterpret_cast<const char*>(&v), sizeof(v))] for a
    [quint32 v]: the four bytes of its object representation.  The host is
    little-endian (the wire format is, and the code copies host bytes). *)
Definition quint32_bytes (v : Z) : QByteArray :=
  [ byte_of_Z v; byte_of_Z (v / 2 ^ 8); byte_of_Z (v / 2 ^ 16); byte_of_Z (v / 2 ^ 24) ].

(** [memcpy(&v, p, sizeof(v))] for a [quint32 v]: the inverse reading. *)
Definition read_quint32 (p : QByteArray) : Z :=
  match p with
  | b0 :: b1 :: b2 :: b3 :: _ =>
      Z_of_byte b0 + 2 ^ 8 * Z_of_byte b1 + 2 ^ 16 * Z_of_byte b2 + 2 ^ 24 * Z_of_byte b3
  | _ => 0
  end.

(** ** JSON values

    [QJsonObject] is a map from keys to values; numbers are the integers the
    code stores.  Text encoding and parsing belong to Qt and come from the
    [World]. *)

#[warnings="-register-all"]
Inductive QJsonValue : Type :=
| JNull
| JBool (b : bool)
| JNumber (n : Z)
| JString (s : string)
| JArray (a : list QJsonValue)
| JObject (o : gmap string QJsonValue).

(** [obj.value(key).toString()]: the string stored under [key], and the
    empty string when the key is missing or holds another kind of value. *)
Definition value_toString (o : gmap string QJsonValue) (key : string) : string :=
  match o !! key with
  | Some (JString s) => s
  | _ => ""%string
  end.

Definition isEmpty (s : string) : bool := (String.length s =? 0)%nat.

(** [QString::number(int)]: the decimal representation. *)
Definition QString_number (n : Z) : string := NilZero.string_of_int (Z.to_int n).

(** ** Presence (discordrpc.h) *)

Record DiscordPresence := {
  type : Z;
  status_display_type : Z;
  name : string;
  state : string;
  details : string;
  start_timestamp : Z;
  end_timestamp : Z;
  large_image_key : string;
  large_image_text : string;
  small_image_key : string;
  small_image_text : string;
  party_id : string;
  party_size : Z;
  party_max : Z;
  party_privacy : Z;
  match_secret : string;
  join_secret : string;
  spectate_secret : string;
  instance : bool
}.

(** The default constructor. *)
Definition DiscordPresence_default : DiscordPresence := {|
  type := 0;
  status_display_type := 0;
  name := "";
  state := "";
  details := "";
  start_timestamp := 0;
  end_timestamp := 0;
  large_image_key := "";
  large_image_text := "";
  small_image_key := "";
  small_image_text := "";
  party_id := "";
  party_size := 0;
  party_max := 0;
  party_privacy := 0;
  match_secret := "";
  join_secret := "";
  spectate_secret := "";
  instance := false
|}.

(** ** The transport, the timer and the surroundings *)

(** [QLocalSocket]: its connection state, the name of the server it last
    connected to, and the byte arrays handed to [write()], oldest first.
    [flush()] changes nothing that the code can observe. *)
Inductive LocalSocketState :=
| UnconnectedState
| ConnectingState
| ConnectedState
| ClosingState.

Record QLocalSocket := {
  sock_state : LocalSocketState;
  sock_server : string;
  sock_writes : list QByteArray
}.

(** [QTimer], single shot: [Some ms] while armed with interval [ms]. *)
Abbreviation QTimer := (option Z) (only parsing).

(** What the surroundings answer.
    - [qEnvironmentVariable], [getpid]: the process environment;
    - [listening path]: whether [connectToServer(path)] followed by
      [waitForConnected(100)] succeeds;
    - [toJson], [fromJson]: [QJsonDocument]'s compact printer and its
      parser ([None] for a parse error);
    - [arg_QString], [arg_int]: [QString::arg] with a string and with an
      [int]: the string in which the lowest-numbered place marker is
      replaced, wherever it stands;
    - [closes_at_once]: how [disconnectFromServer()] ends on an open
      socket.  With nothing left to send, Qt closes the socket inside the
      call and emits [disconnected()] before returning; the constructor
      connected that signal to [OnDisconnected] on the same thread, so the
      slot runs inside the call.  With unsent bytes the socket enters
      [ClosingState] and the signal comes later from the event loop. *)
Record World := {
  qEnvironmentVariable : string -> string;
  getpid : Z;
  listening : string -> bool;
  toJson : QJsonValue -> QByteArray;
  fromJson : QByteArray -> option QJsonValue;
  arg_QString : string -> string -> string;
  arg_int : string -> Z -> string;
  closes_at_once : bool
}.

(** ** The object *)

Inductive State := Disconnected | Connecting | SentHandshake | Connected.

Inductive Opcode := Handshake | Frame | Close | Ping | Pong.

(** [static_cast<quint32>(op)] *)
Definition Opcode_value (op : Opcode) : Z :=
  match op with
  | Handshake => 0
  | Frame => 1
  | Close => 2
  | Ping => 3
  | Pong => 4
  end.

(** [static_cast<Opcode>(opcode)]; [None] stands for a value that names no
    enumerator and falls to [default:]. *)
Definition Opcode_of (opcode : Z) : option Opcode :=
  if opcode =? 0 then Some Handshake
  else if opcode =? 1 then Some Frame
  else if opcode =? 2 then Some Close
  else if opcode =? 3 then Some Ping
  else if opcode =? 4 then Some Pong
  else None.

(** The constants of the anonymous namespace.  [kMaxFrameSize] is declared
    and used nowhere. *)
Definition kReconnectMinDelayMs : Z := 500.
Definition kReconnectMaxDelayMs : Z := 60000.
Definition kRpcVersion : Z := 1.
Definition kMaxFrameSize : Z := 64 * 1024.

Record DiscordRPC := {
  application_id_ : string;
  socket_ : QLocalSocket;
  reconnect_timer_ : QTimer;
  state_ : State;
  nonce_ : Z;
  reconnect_delay_ : Z;
  read_buffer_ : QByteArray
}.

Definition State_eqb (a b : State) : bool :=
  match a, b with
  | Disconnected, Disconnected | Connecting, Connecting
  | SentHandshake, SentHandshake | Connected, Connected => true
  | _, _ => false
  end.

(** Field updates. *)
Definition set_socket (s : QLocalSocket) (d : DiscordRPC) : DiscordRPC :=
  {| application_id_ := application_id_ d; socket_ := s;
     reconnect_timer_ := reconnect_timer_ d; state_ := state_ d;
     nonce_ := nonce_ d; reconnect_delay_ := reconnect_delay_ d;
     read_buffer_ := read_buffer_ d |}.

Definition set_reconnect_timer (t : QTimer) (d : DiscordRPC) : DiscordRPC :=
  {| application_id_ := application_id_ d; socket_ := socket_ d;
     reconnect_timer_ := t; state_ := state_ d;
     nonce_ := nonce_ d; reconnect_delay_ := reconnect_delay_ d;
     read_buffer_ := read_buffer_ d |}.

Definition set_state (s : State) (d : DiscordRPC) : DiscordRPC :=
  {| application_id_ := application_id_ d; socket_ := socket_ d;
     reconnect_timer_ := reconnect_timer_ d; state_ := s;
     nonce_ := nonce_ d; reconnect_delay_ := reconnect_delay_ d;
     read_buffer_ := read_buffer_ d |}.

Definition set_nonce (n : Z) (d : DiscordRPC) : DiscordRPC :=
  {| application_id_ := application_id_ d; socket_ := socket_ d;
     reconnect_timer_ := reconnect_timer_ d; state_ := state_ d;
     nonce_ := n; reconnect_delay_ := reconnect_delay_ d;
     read_buffer_ := read_buffer_ d |}.

Definition set_reconnect_delay (ms : Z) (d : DiscordRPC) : DiscordRPC :=
  {| application_id_ := application_id_ d; socket_ := socket_ d;
     reconnect_timer_ := reconnect_timer_ d; state_ := state_ d;
     nonce_ := nonce_ d; reconnect_delay_ := ms;
     read_buffer_ := read_buffer_ d |}.

Definition set_read_buffer (b : QByteArray) (d : DiscordRPC) : DiscordRPC :=
  {| application_id_ := application_id_ d; socket_ := socket_ d;
     reconnect_timer_ := reconnect_timer_ d; state_ := state_ d;
     nonce_ := nonce_ d; reconnect_delay_ := reconnect_delay_ d;
     read_buffer_ := b |}.

(** Calls on the socket. *)
Definition socket_write (frame : QByteArray) (d : DiscordRPC) : DiscordRPC :=
  set_socket {| sock_state := sock_state (socket_ d);
                sock_server := sock_server (socket_ d);
                sock_writes := sock_writes (socket_ d) ++ [frame] |} d.

Definition socket_set_state (s : LocalSocketState) (d : DiscordRPC) : DiscordRPC :=
  set_socket {| sock_state := s;
                sock_server := sock_server (socket_ d);
                sock_writes := sock_writes (socket_ d) |} d.

Definition socket_connected_to (path : string) (d : DiscordRPC) : DiscordRPC :=
  set_socket {| sock_state := ConnectedState;
                sock_server := path;
                sock_writes := sock_writes (socket_ d) |} d.

(** The constructor. *)
Definition Construct (application_id : string) : DiscordRPC := {|
  application_id_ := application_id;
  socket_ := {| sock_state := UnconnectedState; sock_server := ""; sock_writes := [] |};
  reconnect_timer_ := None;
  state_ := Disconnected;
  nonce_ := 1;
  reconnect_delay_ := kReconnectMinDelayMs;
  read_buffer_ := []
|}.

(** ** Reconnect scheduler *)

Definition ScheduleReconnect (d : DiscordRPC) : DiscordRPC :=
  let d := set_reconnect_timer (Some (reconnect_delay_ d)) d in
  set_reconnect_delay (Z.min (wrap_int (reconnect_delay_ d * 2)) kReconnectMaxDelayMs) d.

(** ** Frames out *)

Definition CreateHandshakeMessage (w : World) (d : DiscordRPC) : QByteArray :=
  let obj : gmap string QJsonValue := ∅ in
  let obj := <["v" := JNumber kRpcVersion]> obj in
  let obj := <["client_id" := JString (application_id_ d)]> obj in
  toJson w (JObject obj).

(** The frame both senders build: header of two [quint32], then the data. *)
Definition frame_bytes (opcode length : Z) (data : QByteArray) : QByteArray :=
  quint32_bytes opcode ++ quint32_bytes length ++ data.

Definition SendHandshake (w : World) (d : DiscordRPC) : DiscordRPC :=
  let handshake_data := CreateHandshakeMessage w d in
  let opcode := Opcode_value Handshake in
  let length := wrap_quint32 (QByteArray.size handshake_data) in
  socket_write (frame_bytes opcode length handshake_data) d.

Definition SendFrame (data : QByteArray) (d : DiscordRPC) : DiscordRPC :=
  if negb (State_eqb (state_ d) Connected) then d
  else
    let opcode := Opcode_value Frame in
    let length := wrap_quint32 (QByteArray.size data) in
    socket_write (frame_bytes opcode length data) d.

(** ** Slots of the transport's signals *)

Definition OnConnected (w : World) (d : DiscordRPC) : DiscordRPC :=
  let d := set_state SentHandshake d in
  let d := set_reconnect_delay kReconnectMinDelayMs d in
  SendHandshake w d.

Definition OnDisconnected (d : DiscordRPC) : DiscordRPC :=
  let d := set_state Disconnected d in
  let d := set_read_buffer [] d in
  ScheduleReconnect d.

(** [socket_->disconnectFromServer()], with the slot it may run (see
    [closes_at_once]).  On an unconnected socket the call does nothing. *)
Definition socket_disconnectFromServer (w : World) (d : DiscordRPC) : DiscordRPC :=
  match sock_state (socket_ d) with
  | UnconnectedState => d
  | _ =>
      if closes_at_once w
      then OnDisconnected (socket_set_state UnconnectedState d)
      else socket_set_state ClosingState d
  end.

(** ** Connecting *)

(** The directories searched for the peer's socket, in order (the branch
    for Unix-like systems). *)
Definition temp_paths (w : World) : list string :=
  let temp_paths := [] in
  let xdg_runtime := qEnvironmentVariable w "XDG_RUNTIME_DIR" in
  let temp_paths := if negb (isEmpty xdg_runtime) then temp_paths ++ [xdg_runtime] else temp_paths in
  let tmpdir := qEnvironmentVariable w "TMPDIR" in
  let temp_paths := if negb (isEmpty tmpdir) then temp_paths ++ [tmpdir] else temp_paths in
  let tmp := qEnvironmentVariable w "TMP" in
  let temp_paths := if negb (isEmpty tmp) then temp_paths ++ [tmp] else temp_paths in
  let temp := qEnvironmentVariable w "TEMP" in
  let temp_paths := if negb (isEmpty temp) then temp_paths ++ [temp] else temp_paths in
  temp_paths ++ ["/tmp"%string].

(** [QString("%1/discord-ipc-%2").arg(temp_path).arg(i)].  What the second
    [arg] replaces depends on the directory name: a place marker that comes
    in with it can be the lowest one. *)
Definition socket_path (w : World) (temp_path : string) (i : Z) : string :=
  arg_int w (arg_QString w "%1/discord-ipc-%2" temp_path) i.

(** The candidates in the order the two nested loops try them. *)
Definition socket_paths (w : World) : list string :=
  flat_map (fun temp_path => map (fun i => socket_path w temp_path (Z.of_nat i)) (seq 0 10))
           (temp_paths w).

(** A candidate that accepts leaves the socket connected to it; when none
    does, the socket is unconnected after the last try.

    This is the body of the function alone.  For the candidate that
    accepts, the socket emits [connected()] while the function still waits
    in [waitForConnected], and the slot [OnConnected] has run when the
    function returns.  The function does nothing between that and its
    [return], so the slot is taken as the next input, [SigConnected]: the
    object the program holds when the call returns is the one after the
    two steps together, never the one in [Connecting] in between.  Runs
    that put another input between the two are more than the program can
    do; what holds of every run holds of the program's. *)
Definition ConnectToDiscord (w : World) (d : DiscordRPC) : DiscordRPC :=
  if negb (State_eqb (state_ d) Disconnected) then d
  else
    let d := set_state Connecting d in
    match List.find (listening w) (socket_paths w) with
    | Some path => socket_connected_to path d
    | None =>
        let d := socket_set_state UnconnectedState d in
        let d := set_state Disconnected d in
        ScheduleReconnect d
    end.

Definition Initialize (w : World) (d : DiscordRPC) : DiscordRPC :=
  if negb (State_eqb (state_ d) Disconnected) then d
  else ConnectToDiscord w d.

Definition Shutdown (w : World) (d : DiscordRPC) : DiscordRPC :=
  let d := set_reconnect_timer None d in
  let d := match sock_state (socket_ d) with
           | UnconnectedState => d
           | _ => socket_disconnectFromServer w d
           end in
  set_state Disconnected d.

Definition OnError (d : DiscordRPC) : DiscordRPC := d.

Definition OnReconnectTimer (w : World) (d : DiscordRPC) : DiscordRPC :=
  ConnectToDiscord w d.

(** ** Frames in *)

Definition HandleMessage (w : World) (data : QByteArray) (d : DiscordRPC) : DiscordRPC :=
  match fromJson w data with
  | Some (JObject obj) =>
      if State_eqb (state_ d) SentHandshake then
        let cmd := value_toString obj "cmd" in
        let evt := value_toString obj "evt" in
        if String.eqb cmd "DISPATCH" && String.eqb evt "READY"
        then set_state Connected d
        else d
      else d
  | _ => d
  end.

Definition header_size : Z := 4 + 4.

(** The [switch] on the opcode of an extracted frame. *)
Definition dispatch (w : World) (opcode length : Z) (message_data : QByteArray)
    (d : DiscordRPC) : DiscordRPC :=
  match Opcode_of opcode with
  | Some Frame => HandleMessage w message_data d
  | Some Close => socket_disconnectFromServer w d
  | Some Ping =>
      let pong_opcode := Opcode_value Pong in
      socket_write (frame_bytes pong_opcode length message_data) d
  | Some Pong | Some Handshake | None => d
  end.

(** The loop of [ProcessIncomingData].  Each turn of the loop costs one unit
    of [fuel]; [None] means the fuel ran out before the loop ended.  The
    result lists, next to the object, the (opcode, payload) pairs that
    reached the [switch], oldest first. *)
Fixpoint ProcessIncomingData (w : World) (fuel : nat) (d : DiscordRPC)
    : option (list (Z * QByteArray) * DiscordRPC) :=
  if QByteArray.size (read_buffer_ d) <? 4 * 2 then Some ([], d)
  else
    match fuel with
    | O => None
    | S fuel' =>
        let opcode := read_quint32 (read_buffer_ d) in
        let length := read_quint32 (drop 4 (read_buffer_ d)) in
        if QByteArray.size (read_buffer_ d) <? wrap_int (header_size + wrap_int length)
        then Some ([], d)
        else
          let message_data := QByteArray.mid (read_buffer_ d) header_size length in
          let d := set_read_buffer
                     (QByteArray.remove_front (read_buffer_ d) (wrap_quint32 (header_size + length)))
                     d in
          let d := dispatch w opcode length message_data d in
          match ProcessIncomingData w fuel' d with
          | Some (events, d) => Some ((opcode, message_data) :: events, d)
          | None => None
          end
    end.

Definition OnReadyRead (w : World) (fuel : nat) (readAll : QByteArray) (d : DiscordRPC)
    : option (list (Z * QByteArray) * DiscordRPC) :=
  let d := set_read_buffer (read_buffer_ d ++ readAll) d in
  ProcessIncomingData w fuel d.

(** ** Presence *)

(** The [activity] object that [CreatePresenceMessage] fills. *)
Definition activity_object (presence : DiscordPresence) : gmap string QJsonValue :=
  let activity : gmap string QJsonValue := ∅ in
  let activity :=
    if (0 <=? type presence) && (type presence <=? 5)
    then <["status_display_type" := JNumber (status_display_type presence)]>
           (<["type" := JNumber (type presence)]> activity)
    else activity in
  let activity :=
    if negb (isEmpty (name presence))
    then <["name" := JString (name presence)]> activity else activity in
  let activity :=
    if negb (isEmpty (state presence))
    then <["state" := JString (state presence)]> activity else activity in
  let activity :=
    if negb (isEmpty (details presence))
    then <["details" := JString (details presence)]> activity else activity in
  let activity :=
    if (0 <? start_timestamp presence) || (0 <? end_timestamp presence) then
      let timestamps : gmap string QJsonValue := ∅ in
      let timestamps :=
        if 0 <? start_timestamp presence
        then <["start" := JNumber (start_timestamp presence)]> timestamps else timestamps in
      let timestamps :=
        if 0 <? end_timestamp presence
        then <["end" := JNumber (end_timestamp presence)]> timestamps else timestamps in
      <["timestamps" := JObject timestamps]> activity
    else activity in
  let activity :=
    if negb (isEmpty (large_image_key presence)) || negb (isEmpty (large_image_text presence))
       || negb (isEmpty (small_image_key presence)) || negb (isEmpty (small_image_text presence))
    then
      let assets : gmap string QJsonValue := ∅ in
      let assets :=
        if negb (isEmpty (large_image_key presence))
        then <["large_image" := JString (large_image_key presence)]> assets else assets in
      let assets :=
        if negb (isEmpty (large_image_text presence))
        then <["large_text" := JString (large_image_text presence)]> assets else assets in
      let assets :=
        if negb (isEmpty (small_image_key presence))
        then <["small_image" := JString (small_image_key presence)]> assets else assets in
      let assets :=
        if negb (isEmpty (small_image_text presence))
        then <["small_text" := JString (small_image_text presence)]> assets else assets in
      <["assets" := JObject assets]> activity
    else activity in
  let activity :=
    if negb (isEmpty (party_id presence)) || (0 <? party_size presence)
       || (0 <? party_max presence) || (0 <? party_privacy presence)
    then
      let party : gmap string QJsonValue := ∅ in
      let party :=
        if negb (isEmpty (party_id presence))
        then <["id" := JString (party_id presence)]> party else party in
      let party :=
        if (0 <? party_size presence) && (0 <? party_max presence)
        then <["size" := JArray [JNumber (party_size presence); JNumber (party_max presence)]]> party
        else party in
      let party :=
        if 0 <? party_privacy presence
        then <["privacy" := JNumber (party_privacy presence)]> party else party in
      <["party" := JObject party]> activity
    else activity in
  let activity :=
    if negb (isEmpty (match_secret presence)) || negb (isEmpty (join_secret presence))
       || negb (isEmpty (spectate_secret presence))
    then
      let secrets : gmap string QJsonValue := ∅ in
      let secrets :=
        if negb (isEmpty (match_secret presence))
        then <["match" := JString (match_secret presence)]> secrets else secrets in
      let secrets :=
        if negb (isEmpty (join_secret presence))
        then <["join" := JString (join_secret presence)]> secrets else secrets in
      let secrets :=
        if negb (isEmpty (spectate_secret presence))
        then <["spectate" := JString (spectate_secret presence)]> secrets else secrets in
      <["secrets" := JObject secrets]> activity
    else activity in
  <["instance" := JBool (instance presence)]> activity.

(** The command object, given the nonce it carries. *)
Definition presence_command (w : World) (nonce : Z) (presence : DiscordPresence)
    : gmap string QJsonValue :=
  let obj : gmap string QJsonValue := ∅ in
  let obj := <["cmd" := JString "SET_ACTIVITY"]> obj in
  let obj := <["nonce" := JString (QString_number nonce)]> obj in
  let args : gmap string QJsonValue := ∅ in
  let args := <["pid" := JNumber (getpid w)]> args in
  let args := <["activity" := JObject (activity_object presence)]> args in
  <["args" := JObject args]> obj.

(** [CreatePresenceMessage]: the message, and the object with its nonce
    counter advanced ([nonce_++]). *)
Definition CreatePresenceMessage (w : World) (presence : DiscordPresence) (d : DiscordRPC)
    : QByteArray * DiscordRPC :=
  let nonce := nonce_ d in
  let d := set_nonce (wrap_int (nonce + 1)) d in
  (toJson w (JObject (presence_command w nonce presence)), d).

Definition UpdatePresence (w : World) (presence : DiscordPresence) (d : DiscordRPC) : DiscordRPC :=
  if State_eqb (state_ d) Connected then
    let '(data, d) := CreatePresenceMessage w presence d in
    SendFrame data d
  else d.

Definition ClearPresence (w : World) (d : DiscordRPC) : DiscordRPC :=
  let empty_presence := DiscordPresence_default in
  UpdatePresence w empty_presence d.

Definition IsConnected (d : DiscordRPC) : bool := State_eqb (state_ d) Connected.

(** ** The object as a reactive system

    The host application calls the public functions; the event loop
    delivers the signals the constructor connected.  A signal is delivered
    only when its source can emit it: [connected()] by a connected socket,
    [disconnected()] by a socket that was open (it is unconnected when the
    slot runs), [readyRead()] by an open socket, [timeout()] by an armed
    timer (single shot: it is unarmed when the slot runs).

    [connected()] may also be emitted while [ConnectToDiscord] still waits
    in [waitForConnected]; the function returns right after, so the slot
    run as the next input leaves the same object.  [disconnected()] emitted
    inside [disconnectFromServer()] is part of that call (see
    [closes_at_once]); the input [SigDisconnected] is the signal that
    comes from the event loop: the peer went away, or a deferred close
    finished. *)

Inductive Input :=
| CallInitialize
| CallShutdown
| CallUpdatePresence (presence : DiscordPresence)
| CallClearPresence
| SigConnected
| SigDisconnected
| SigReadyRead (readAll : QByteArray)
| SigError
| SigTimeout.

Definition step (w : World) (fuel : nat) (i : Input) (d : DiscordRPC) : option DiscordRPC :=
  match i with
  | CallInitialize => Some (Initialize w d)
  | CallShutdown => Some (Shutdown w d)
  | CallUpdatePresence presence => Some (UpdatePresence w presence d)
  | CallClearPresence => Some (ClearPresence w d)
  | SigConnected =>
      match sock_state (socket_ d) with
      | ConnectedState => Some (OnConnected w d)
      | _ => Some d
      end
  | SigDisconnected =>
      match sock_state (socket_ d) with
      | UnconnectedState => Some d
      | _ => Some (OnDisconnected (socket_set_state UnconnectedState d))
      end
  | SigReadyRead readAll =>
      match sock_state (socket_ d) with
      | UnconnectedState => Some d
      | _ => option_map snd (OnReadyRead w fuel readAll d)
      end
  | SigError => Some (OnError d)
  | SigTimeout =>
      match reconnect_timer_ d with
      | Some _ => Some (OnReconnectTimer w (set_reconnect_timer None d))
      | None => Some d
      end
  end.

(** A run: inputs in order, each with the world it meets. *)
Fixpoint run (fuel : nat) (inputs : list (World * Input)) (d : DiscordRPC) : option DiscordRPC :=
  match inputs with
  | [] => Some d
  | (w, i) :: inputs =>
      match step w fuel i d with
      | Some d => run fuel inputs d
      | None => None
      end
  end.

(** The states the object can be in. *)
Inductive reachable : DiscordRPC -> Prop :=
| reachable_Construct application_id :
    reachable (Construct application_id)
| reachable_step w fuel i d d' :
    reachable d -> step w fuel i d = Some d' -> reachable d'.

(** An encoded frame as the peer sends it. *)
Definition encode_frame (opcode : Z) (payload : QByteArray) : QByteArray :=
  frame_bytes opcode (QByteArray.size payload) payload.

(** The declared payload length of the frame a buffer starts with. *)
Definition declared_length (b : QByteArray) : Z := read_quint32 (drop 4 b).

(** ** Vocabulary of the statements *)

(** A frame the decoder's [int] arithmetic can represent: a 32-bit opcode,
    and a payload whose size plus the header stays below 2^31. *)
Definition valid_frame (f : Z * QByteArray) : Prop :=
  0 <= f.1 < 2 ^ 32 /\ header_size + QByteArray.size f.2 < 2 ^ 31.

Definition encode_frames (frames : list (Z * QByteArray)) : QByteArray :=
  flat_map (fun f => encode_frame f.1 f.2) frames.

(** No frame but the last is a [Close]. *)
Definition no_Close_before_last (frames : list (Z * QByteArray)) : Prop :=
  Forall (fun f => f.1 <> Opcode_value Close) (removelast frames).

(** While the handshake is out or the session is up, the stored delay is
    the floor. *)
Definition delay_at_floor (d : DiscordRPC) : Prop :=
  state_ d = SentHandshake \/ state_ d = Connected ->
  reconnect_delay_ d = kReconnectMinDelayMs.

(** The delay [ScheduleReconnect] stores, from the one it finds. *)
Definition next_delay (ms : Z) : Z := Z.min (wrap_int (ms * 2)) kReconnectMaxDelayMs.

(** A world where no candidate socket accepts a connection. *)
Definition deaf (w : World) : Prop :=
  List.find (listening w) (socket_paths w) = None.

(** Connection attempts in a row, one per world: the first through
    [Initialize], each later one through the reconnect timer. *)
Definition attempts (ws : list World) : list (World * Input) :=
  match ws with
  | [] => []
  | w :: ws => (w, CallInitialize) :: map (fun w => (w, SigTimeout)) ws
  end.

(** A step that is a connection failure: a connection attempt that starts
    (state [Disconnected]; through [Initialize], or through the timer when
    it is armed) and finds no candidate that accepts, or the socket's
    [disconnected()] on an open socket. *)
Definition connection_failure (w : World) (i : Input) (d : DiscordRPC) : Prop :=
  match i with
  | CallInitialize => state_ d = Disconnected /\ deaf w
  | SigTimeout => state_ d = Disconnected /\ deaf w /\ is_Some (reconnect_timer_ d)
  | SigDisconnected => sock_state (socket_ d) <> UnconnectedState
  | _ => False
  end.

(** Failures in a row: every input is a failure in the state it meets. *)
Fixpoint failures_in_a_row (inputs : list (World * Input)) (d : DiscordRPC) : Prop :=
  match inputs with
  | [] => True
  | (w, i) :: inputs =>
      connection_failure w i d
      /\ match step w 0 i d with
         | Some d' => failures_in_a_row inputs d'
         | None => False
         end
  end.

(** A presence with a name and a state, every other field as the default
    constructor leaves it. *)
Definition presence_named (n s : string) : DiscordPresence := {|
  type := 0;
  status_display_type := 0;
  name := n;
  state := s;
  details := "";
  start_timestamp := 0;
  end_timestamp := 0;
  large_image_key := "";
  large_image_text := "";
  small_image_key := "";
  small_image_text := "";
  party_id := "";
  party_size := 0;
  party_max := 0;
  party_privacy := 0;
  match_secret := "";
  join_secret := "";
  spectate_secret := "";
  instance := false
|}.

(** ** Sample surroundings

    Concrete worlds and inputs on which the statements are evaluated.  The
    sample parser knows one text, the peer's ready message, and the sample
    printer prints nothing; the peer, when there is one, listens on
    [/tmp/discord-ipc-0]; no environment variable is set. *)

Fixpoint QByteArray_eqb (a b : QByteArray) : bool :=
  match a, b with
  | [], [] => true
  | x :: a, y :: b => Byte.eqb x y && QByteArray_eqb a b
  | _, _ => false
  end.

(** The peer's ready message as JSON text: an object with the two string
    members cmd = DISPATCH and evt = READY. *)
Definition ready_text : QByteArray :=
  [ x7b; x22; x63; x6d; x64; x22; x3a; x22; x44; x49; x53; x50; x41; x54; x43; x48; x22;
    x2c; x22; x65; x76; x74; x22; x3a; x22; x52; x45; x41; x44; x59; x22; x7d ].

Definition ready_object : gmap string QJsonValue :=
  <["evt" := JString "READY"]> (<["cmd" := JString "DISPATCH"]> ∅).

(** The sample [arg]: Qt's rule for place markers written in ASCII.  A
    marker is a percent sign, an optional L and one or two digits; every
    occurrence of the marker with the lowest number is replaced, and a
    string without a marker stays as it is. *)
Inductive ArgPiece :=
| ArgText (text : string)
| ArgMarker (number : nat) (raw : string).

Inductive ArgScan :=
| ScanPlain
| ScanPercent
| ScanPercentL
| ScanDigit (number : nat) (raw : string).

Definition digitValue (c : ascii) : option nat :=
  let n := nat_of_ascii c in
  if (48 <=? n)%nat && (n <=? 57)%nat then Some (n - 48)%nat else None.

Fixpoint arg_pieces (scan : ArgScan) (s : string) : list ArgPiece :=
  let resume (c : ascii) (rest : list ArgPiece -> list ArgPiece) (s' : string) :=
    if Ascii.eqb c "%" then rest (arg_pieces ScanPercent s')
    else rest (ArgText (String c EmptyString) :: arg_pieces ScanPlain s') in
  match s with
  | EmptyString =>
      match scan with
      | ScanPlain => []
      | ScanPercent => [ArgText "%"]
      | ScanPercentL => [ArgText "%L"]
      | ScanDigit number raw => [ArgMarker number raw]
      end
  | String c s' =>
      match scan with
      | ScanPlain => resume c (fun pieces => pieces) s'
      | ScanPercent =>
          if Ascii.eqb c "L" then arg_pieces ScanPercentL s'
          else match digitValue c with
               | Some n => arg_pieces (ScanDigit n (String "%" (String c EmptyString))) s'
               | None => resume c (cons (ArgText "%")) s'
               end
      | ScanPercentL =>
          match digitValue c with
          | Some n =>
              arg_pieces (ScanDigit n (String "%" (String "L" (String c EmptyString)))) s'
          | None => resume c (cons (ArgText "%L")) s'
          end
      | ScanDigit number raw =>
          match digitValue c with
          | Some n =>
              ArgMarker (10 * number + n) (raw ++ String c EmptyString)
                :: arg_pieces ScanPlain s'
          | None => resume c (cons (ArgMarker number raw)) s'
          end
      end
  end.

Definition lowest_marker (pieces : list ArgPiece) : option nat :=
  fold_right (fun piece lowest =>
                match piece, lowest with
                | ArgMarker n _, Some m => Some (Nat.min n m)
                | ArgMarker n _, None => Some n
                | ArgText _, _ => lowest
                end) None pieces.

Definition sample_arg (template a : string) : string :=
  let pieces := arg_pieces ScanPlain template in
  match lowest_marker pieces with
  | None => template
  | Some lowest =>
      fold_right (fun piece rest =>
                    match piece with
                    | ArgText text => text ++ rest
                    | ArgMarker n raw => (if (n =? lowest)%nat then a else raw) ++ rest
                    end)%string EmptyString pieces
  end.

Definition sample_world (peer_listens at_once : bool) : World := {|
  qEnvironmentVariable := fun _ => ""%string;
  getpid := 4242;
  listening := fun path => peer_listens && String.eqb path "/tmp/discord-ipc-0";
  toJson := fun _ => [];
  fromJson := fun data =>
    if QByteArray_eqb data ready_text then Some (JObject ready_object) else None;
  arg_QString := sample_arg;
  arg_int := fun template i => sample_arg template (QString_number i);
  closes_at_once := at_once
|}.

(** An object whose socket is open, in a given connection state. *)
Definition sample_open (s : State) : DiscordRPC :=
  set_state s (socket_connected_to "/tmp/discord-ipc-0" (Construct "strawberry")).

(** The object after [Initialize] has found the peer and the socket has
    reported the connection: the handshake is out. *)
Definition sample_handshaking : DiscordRPC :=
  OnConnected (sample_world true false)
              (Initialize (sample_world true false) (Construct "strawberry")).

Definition sample_presence : DiscordPresence :=
  presence_named "Listening" "Track - Artist".

(** ** Vocabulary of the further statements *)

(** Reads in a row: [OnReadyRead] once per chunk, the pairs handed to the
    [switch] collected over all of them. *)
Fixpoint OnReadyRead_all (w : World) (fuel : nat) (chunks : list QByteArray) (d : DiscordRPC)
    : option (list (Z * QByteArray) * DiscordRPC) :=
  match chunks with
  | [] => Some ([], d)
  | readAll :: chunks =>
      match OnReadyRead w fuel readAll d with
      | Some (events, d) =>
          match OnReadyRead_all w fuel chunks d with
          | Some (events', d) => Some (events ++ events', d)
          | None => None
          end
      | None => None
      end
  end.

(** A buffer the loop waits on: less than a header, or a header with less
    payload behind it than it declares. *)
Definition awaits_more (b : QByteArray) : Prop :=
  QByteArray.size b < 8
  \/ (header_size + declared_length b < 2 ^ 31
      /\ QByteArray.size b < header_size + declared_length b).

(** The frame [SendHandshake] writes. *)
Definition handshake_frame (w : World) (d : DiscordRPC) : QByteArray :=
  frame_bytes (Opcode_value Handshake)
              (wrap_quint32 (QByteArray.size (CreateHandshakeMessage w d)))
              (CreateHandshakeMessage w d).

(** The opcodes of the frames this client sends. *)
Definition sends_opcode (frame : QByteArray) : Prop :=
  8 <= QByteArray.size frame
  /\ (read_quint32 frame = Opcode_value Handshake
      \/ read_quint32 frame = Opcode_value Frame
      \/ read_quint32 frame = Opcode_value Pong).

(** The three invariants of the further statements. *)
Definition sends_only_known_frames (d : DiscordRPC) : Prop :=
  Forall sends_opcode (sock_writes (socket_ d)).


Definition timing_in_range (d : DiscordRPC) : Prop :=
  kReconnectMinDelayMs <= reconnect_delay_ d <= kReconnectMaxDelayMs
  /\ forall ms, reconnect_timer_ d = Some ms ->
               kReconnectMinDelayMs <= ms <= kReconnectMaxDelayMs.

(** * Properties *)

(** ** Bytes and headers *)

Lemma Z_of_byte_of_Z (z : Z) : Z_of_byte (byte_of_Z z) = z mod 256.
Proof.
  unfold Z_of_byte, byte_of_Z.
  assert (Hr : 0 <= z mod 256 < 256) by (apply Z.mod_pos_bound; lia).
  destruct (Byte.of_N (Z.to_N (z mod 256))) as [b|] eqn:E.
  - apply Byte.to_of_N in E. rewrite E. apply Z2N.id. lia.
  - apply Byte.of_N_None_iff in E. lia.
Qed.

Lemma Z_of_byte_range (b : byte) : 0 <= Z_of_byte b < 256.
Proof.
  unfold Z_of_byte. pose proof (Byte.to_N_bounded b). lia.
Qed.

Lemma quint32_bytes_length (v : Z) : length (quint32_bytes v) = 4%nat.
Proof. reflexivity. Qed.

Lemma read_quint32_bytes (v : Z) (rest : QByteArray) :
  0 <= v < 2 ^ 32 -> read_quint32 (quint32_bytes v ++ rest) = v.
Proof.
  intros Hv. unfold quint32_bytes, read_quint32. cbn [app].
  rewrite !Z_of_byte_of_Z.
  change (2 ^ 8) with 256. change (2 ^ 16) with 65536. change (2 ^ 24) with 16777216.
  change (2 ^ 32) with 4294967296 in Hv.
  Z.div_mod_to_equations. lia.
Qed.

Lemma read_quint32_range (p : QByteArray) : 0 <= read_quint32 p < 2 ^ 32.
Proof.
  unfold read_quint32.
  destruct p as [|b0 [|b1 [|b2 [|b3 p]]]]; try (cbn; lia).
  pose proof (Z_of_byte_range b0). pose proof (Z_of_byte_range b1).
  pose proof (Z_of_byte_range b2). pose proof (Z_of_byte_range b3).
  change (2 ^ 8) with 256. change (2 ^ 16) with 65536. change (2 ^ 24) with 16777216.
  change (2 ^ 32) with 4294967296. lia.
Qed.

Lemma wrap_int_small (z : Z) : - 2 ^ 31 <= z < 2 ^ 31 -> wrap_int z = z.
Proof.
  intros Hz. unfold wrap_int. rewrite Z.mod_small; lia.
Qed.

Lemma wrap_quint32_small (z : Z) : 0 <= z < 2 ^ 32 -> wrap_quint32 z = z.
Proof.
  intros Hz. unfold wrap_quint32. apply Z.mod_small. lia.
Qed.

Lemma encode_frame_size (opcode : Z) (payload : QByteArray) :
  QByteArray.size (encode_frame opcode payload) = header_size + QByteArray.size payload.
Proof.
  unfold encode_frame, frame_bytes, QByteArray.size, header_size.
  rewrite !length_app, !quint32_bytes_length. lia.
Qed.

(** What the loop reads from a buffer that starts with an encoded frame. *)
Lemma encode_frame_opcode (opcode : Z) (payload rest : QByteArray) :
  0 <= opcode < 2 ^ 32 ->
  read_quint32 (encode_frame opcode payload ++ rest) = opcode.
Proof.
  intros Hop. unfold encode_frame, frame_bytes.
  rewrite <- !app_assoc. by apply read_quint32_bytes.
Qed.

Lemma encode_frame_length (opcode : Z) (payload rest : QByteArray) :
  QByteArray.size payload < 2 ^ 32 ->
  declared_length (encode_frame opcode payload ++ rest) = QByteArray.size payload.
Proof.
  intros Hlen. unfold declared_length, encode_frame, frame_bytes.
  rewrite <- !app_assoc.
  change (drop 4 (quint32_bytes opcode ++ ?l)) with l.
  apply read_quint32_bytes. unfold QByteArray.size in *. lia.
Qed.

(** ** One turn of the decode loop *)

Lemma ProcessIncomingData_short (w : World) (fuel : nat) (d : DiscordRPC) :
  QByteArray.size (read_buffer_ d) < 8 ->
  ProcessIncomingData w fuel d = Some ([], d).
Proof.
  intros Hsz. destruct fuel; cbn [ProcessIncomingData];
    (destruct (Z.ltb_spec (QByteArray.size (read_buffer_ d)) (4 * 2)); [done | lia]).
Qed.

Lemma ProcessIncomingData_turn (w : World) (fuel : nat) (d : DiscordRPC) :
  8 <= QByteArray.size (read_buffer_ d) ->
  ProcessIncomingData w (S fuel) d =
    let opcode := read_quint32 (read_buffer_ d) in
    let length := declared_length (read_buffer_ d) in
    if QByteArray.size (read_buffer_ d) <? wrap_int (header_size + wrap_int length)
    then Some ([], d)
    else
      let message_data := QByteArray.mid (read_buffer_ d) header_size length in
      let d' := set_read_buffer
                  (QByteArray.remove_front (read_buffer_ d) (wrap_quint32 (header_size + length)))
                  d in
      match ProcessIncomingData w fuel (dispatch w opcode length message_data d') with
      | Some (events, d'') => Some ((opcode, message_data) :: events, d'')
      | None => None
      end.
Proof.
  intros Hsz. cbn [ProcessIncomingData].
  destruct (Z.ltb_spec (QByteArray.size (read_buffer_ d)) (4 * 2)); [lia | reflexivity].
Qed.

Lemma mid_encode_frame (opcode : Z) (payload rest : QByteArray) :
  QByteArray.mid (encode_frame opcode payload ++ rest) header_size (QByteArray.size payload)
  = payload.
Proof.
  unfold QByteArray.mid.
  destruct (Z.ltb_spec (QByteArray.size payload) 0) as [Hneg|_];
    [unfold QByteArray.size in Hneg; lia|].
  unfold encode_frame, frame_bytes. rewrite <- !app_assoc.
  change (drop (Z.to_nat header_size) (quint32_bytes opcode ++ quint32_bytes ?l ++ ?r)) with r.
  rewrite Z.min_l.
  - unfold QByteArray.size. rewrite Nat2Z.id. by rewrite take_app_length.
  - unfold QByteArray.size, header_size.
    rewrite !length_app, !quint32_bytes_length. lia.
Qed.

Lemma remove_front_encode_frame (opcode : Z) (payload rest : QByteArray) :
  QByteArray.remove_front (encode_frame opcode payload ++ rest)
                          (header_size + QByteArray.size payload)
  = rest.
Proof.
  unfold QByteArray.remove_front.
  rewrite Z.min_l.
  - rewrite <- encode_frame_size with (opcode := opcode).
    unfold QByteArray.size. rewrite Nat2Z.id. by rewrite drop_app_length.
  - rewrite <- encode_frame_size with (opcode := opcode).
    unfold QByteArray.size. rewrite length_app. lia.
Qed.

(** A buffer that starts with a complete frame: the turn extracts exactly
    that frame, hands it to the [switch] and goes on with what follows. *)
Lemma ProcessIncomingData_frame (w : World) (fuel : nat) (d : DiscordRPC)
    (opcode : Z) (payload rest : QByteArray) :
  0 <= opcode < 2 ^ 32 ->
  header_size + QByteArray.size payload < 2 ^ 31 ->
  read_buffer_ d = encode_frame opcode payload ++ rest ->
  ProcessIncomingData w (S fuel) d =
    match ProcessIncomingData w fuel
            (dispatch w opcode (QByteArray.size payload) payload (set_read_buffer rest d)) with
    | Some (events, d') => Some ((opcode, payload) :: events, d')
    | None => None
    end.
Proof.
  intros Hop Hlen Hbuf.
  assert (Hp : 0 <= QByteArray.size payload) by (unfold QByteArray.size; lia).
  assert (Hh : header_size = 8) by reflexivity.
  rewrite ProcessIncomingData_turn.
  2:{ rewrite Hbuf. unfold QByteArray.size. rewrite length_app.
      pose proof (encode_frame_size opcode payload) as Hs.
      unfold QByteArray.size in Hs. lia. }
  cbv zeta. rewrite Hbuf.
  rewrite encode_frame_opcode by done.
  rewrite encode_frame_length by lia.
  rewrite (wrap_int_small (QByteArray.size payload)) by lia.
  rewrite wrap_int_small by lia.
  rewrite wrap_quint32_small by lia.
  destruct (Z.ltb_spec (QByteArray.size (encode_frame opcode payload ++ rest))
                       (header_size + QByteArray.size payload)) as [Hlt|_].
  { exfalso. revert Hlt. unfold QByteArray.size at 1. rewrite length_app.
    pose proof (encode_frame_size opcode payload) as Hs.
    unfold QByteArray.size in Hs |- *. lia. }
  by rewrite mid_encode_frame, remove_front_encode_frame.
Qed.

(** ** Coalesced frames *)

Lemma HandleMessage_read_buffer (w : World) (data : QByteArray) (d : DiscordRPC) :
  read_buffer_ (HandleMessage w data d) = read_buffer_ d.
Proof.
  unfold HandleMessage.
  destruct (fromJson w data) as [[| | | | |obj]|]; try reflexivity.
  destruct (State_eqb (state_ d) SentHandshake); [|reflexivity].
  by destruct (_ && _).
Qed.

Lemma Opcode_of_Close (opcode : Z) : Opcode_of opcode = Some Close -> opcode = 2.
Proof.
  unfold Opcode_of.
  repeat (match goal with |- context [?a =? ?b] => destruct (Z.eqb_spec a b) end);
    congruence.
Qed.

(** The [switch] leaves the buffer alone, except for a [Close] whose
    disconnect completes inside the call. *)
Lemma dispatch_read_buffer (w : World) (opcode length : Z) (data : QByteArray) (d : DiscordRPC) :
  closes_at_once w = false \/ opcode <> Opcode_value Close \/ read_buffer_ d = [] ->
  read_buffer_ (dispatch w opcode length data d) = read_buffer_ d.
Proof.
  intros Hc. unfold dispatch.
  destruct (Opcode_of opcode) as [[| | | |]|] eqn:Hop; try reflexivity.
  - apply HandleMessage_read_buffer.
  - apply Opcode_of_Close in Hop.
    unfold socket_disconnectFromServer.
    destruct (sock_state (socket_ d)); try reflexivity;
      (destruct (closes_at_once w); [|reflexivity]);
      destruct Hc as [Hc|[Hc|Hc]]; try discriminate; try (by rewrite Hop in Hc);
      by rewrite Hc.
Qed.

Lemma frames_decoded (w : World) (frames : list (Z * QByteArray)) :
  Forall valid_frame frames ->
  closes_at_once w = false \/ no_Close_before_last frames ->
  forall d, read_buffer_ d = encode_frames frames ->
  exists d', ProcessIncomingData w (length frames) d = Some (frames, d')
             /\ read_buffer_ d' = [].
Proof.
  intros Hvalid. induction Hvalid as [|[opcode payload] frames [Hop Hlen] Hvalid IH];
    intros Hclose d Hbuf.
  - exists d. split; [|done].
    apply ProcessIncomingData_short. rewrite Hbuf. reflexivity.
  - cbn [length]. cbn in Hop, Hlen.
    rewrite (ProcessIncomingData_frame w _ d opcode payload (encode_frames frames)); try done.
    set (d1 := dispatch _ _ _ _ _).
    assert (Hd1 : read_buffer_ d1 = encode_frames frames).
    { unfold d1. rewrite dispatch_read_buffer; [done|].
      destruct Hclose as [Hnow|Hnc]; [by left|right].
      destruct frames as [|f frames]; [by right|left].
      unfold no_Close_before_last in Hnc. cbn [removelast] in Hnc.
      by inversion Hnc. }
    destruct (IH) with (d := d1) as (d' & Hrun & Hempty); [|done|].
    { destruct Hclose as [Hnow|Hnc]; [by left|right].
      unfold no_Close_before_last in *.
      destruct frames as [|f frames]; [constructor|].
      cbn [removelast] in Hnc. by inversion Hnc. }
    exists d'. by rewrite Hrun.
Qed.

(** C1 (as amended).  Frames that arrive coalesced in one read are all
    decoded in that pass: when the receive buffer is empty and a single read
    delivers the concatenation of K encoded frames (any K, each with a
    payload of fewer than 2^31 - 8 bytes), [OnReadyRead] hands exactly those
    K (opcode, payload) pairs to the [switch], in the order of the buffer
    and with the original payload bytes, and leaves the buffer empty --
    provided no frame before the last is a [Close] whose disconnect the
    transport completes inside the call. *)
Theorem coalesced_frames_decoded_in_order
    (w : World) (frames : list (Z * QByteArray)) (d : DiscordRPC) :
  Forall valid_frame frames ->
  closes_at_once w = false \/ no_Close_before_last frames ->
  read_buffer_ d = [] ->
  exists d', OnReadyRead w (length frames) (encode_frames frames) d = Some (frames, d')
             /\ read_buffer_ d' = [].
Proof.
  intros Hvalid Hclose Hempty. unfold OnReadyRead.
  apply frames_decoded; try done.
  cbn. by rewrite Hempty.
Qed.

Lemma coalesced_frames_decoded_in_order_witness :
  exists d',
    OnReadyRead (sample_world true false) 2
                (encode_frames [(3, [x01; x02]); (1, ready_text)])
                (sample_open SentHandshake)
    = Some ([(3, [x01; x02]); (1, ready_text)], d')
    /\ read_buffer_ d' = [].
Proof.
  apply (coalesced_frames_decoded_in_order
           (sample_world true false) [(3, [x01; x02]); (1, ready_text)]
           (sample_open SentHandshake)).
  - repeat constructor; cbn; lia.
  - left. reflexivity.
  - reflexivity.
Defined.

(** C1, as stated, fails: a [Close] frame followed by a [Frame] frame, read
    in one chunk on an open socket that closes at once.  Only the [Close]
    reaches the [switch]; [OnDisconnected] has emptied the buffer before
    the loop looks at it again.  No amount of fuel yields both frames. *)
Lemma Close_at_once_drops_following_frames :
  let w := sample_world true true in
  let frames := [(2, []); (1, ready_text)] in
  Forall valid_frame frames
  /\ read_buffer_ (sample_open Connected) = []
  /\ OnReadyRead w 2 (encode_frames frames) (sample_open Connected)
     = Some ([(2, [])], OnDisconnected (socket_set_state UnconnectedState (sample_open Connected)))
  /\ forall fuel d',
       OnReadyRead w fuel (encode_frames frames) (sample_open Connected) <> Some (frames, d').
Proof.
  cbv zeta. split; [|split; [|split]].
  - repeat constructor; cbn; lia.
  - reflexivity.
  - vm_compute. reflexivity.
  - intros [|fuel] d'; [vm_compute; discriminate|].
    unfold OnReadyRead.
    rewrite (ProcessIncomingData_frame _ fuel _ 2 [] (encode_frame 1 ready_text));
      [|lia|by vm_compute|reflexivity].
    rewrite ProcessIncomingData_short by (vm_compute; reflexivity).
    discriminate.
Qed.

(** ** Partial frames and the remainder of a pass *)

(** A turn of the loop, from what it reads off the buffer. *)
Lemma ProcessIncomingData_extract (w : World) (fuel : nat) (d : DiscordRPC)
    (opcode length : Z) (data rest : QByteArray) :
  8 <= QByteArray.size (read_buffer_ d) ->
  read_quint32 (read_buffer_ d) = opcode ->
  declared_length (read_buffer_ d) = length ->
  (QByteArray.size (read_buffer_ d) <? wrap_int (header_size + wrap_int length)) = false ->
  QByteArray.mid (read_buffer_ d) header_size length = data ->
  QByteArray.remove_front (read_buffer_ d) (wrap_quint32 (header_size + length)) = rest ->
  ProcessIncomingData w (S fuel) d =
    match ProcessIncomingData w fuel (dispatch w opcode length data (set_read_buffer rest d)) with
    | Some (events, d') => Some ((opcode, data) :: events, d')
    | None => None
    end.
Proof.
  intros Hsz Hop Hlen Hfull Hmid Hrem.
  rewrite ProcessIncomingData_turn by done. cbv zeta.
  by rewrite Hop, Hlen, Hfull, Hmid, Hrem.
Qed.

(** Fewer than 8 bytes, or a header that declares more payload than is
    buffered (with header and payload below 2^31 bytes together): the pass
    hands nothing to the [switch] and changes nothing. *)
Lemma partial_frame_waits (w : World) (fuel : nat) (d : DiscordRPC) :
  QByteArray.size (read_buffer_ d) < 8
  \/ (header_size + declared_length (read_buffer_ d) < 2 ^ 31
      /\ QByteArray.size (read_buffer_ d) < header_size + declared_length (read_buffer_ d)) ->
  ProcessIncomingData w (S fuel) d = Some ([], d).
Proof.
  intros [Hshort|[Hrange Hpart]]; [by apply ProcessIncomingData_short|].
  destruct (Z.lt_ge_cases (QByteArray.size (read_buffer_ d)) 8) as [Hshort|Hsz];
    [by apply ProcessIncomingData_short|].
  rewrite ProcessIncomingData_turn by done. cbv zeta.
  pose proof (read_quint32_range (drop 4 (read_buffer_ d))) as Hl.
  fold (declared_length (read_buffer_ d)) in Hl.
  assert (Hh : header_size = 8) by reflexivity.
  rewrite (wrap_int_small (declared_length _)) by lia.
  rewrite wrap_int_small by lia.
  by destruct (Z.ltb_spec (QByteArray.size (read_buffer_ d))
                          (header_size + declared_length (read_buffer_ d))); [|lia].
Qed.

Lemma wrap_int_header_le (length : Z) :
  0 <= length < 2 ^ 32 ->
  wrap_int (header_size + wrap_int length) <= header_size + length.
Proof.
  intros Hl. unfold wrap_int, header_size.
  change (2 ^ 31) with 2147483648. change (2 ^ 32) with 4294967296 in *.
  Z.div_mod_to_equations. lia.
Qed.

(** When a pass ends, what stays in the buffer is less than a header, or a
    header with less payload than it declares. *)
Lemma pass_leaves_partial_frame (w : World) (fuel : nat) :
  forall d events d',
    ProcessIncomingData w fuel d = Some (events, d') ->
    QByteArray.size (read_buffer_ d') < 8
    \/ QByteArray.size (read_buffer_ d') < header_size + declared_length (read_buffer_ d').
Proof.
  induction fuel as [|fuel IH]; intros d events d' Hrun.
  - cbn [ProcessIncomingData] in Hrun.
    destruct (Z.ltb_spec (QByteArray.size (read_buffer_ d)) (4 * 2)); [|done].
    injection Hrun as _ <-. left. lia.
  - destruct (Z.lt_ge_cases (QByteArray.size (read_buffer_ d)) 8) as [Hshort|Hsz].
    { rewrite ProcessIncomingData_short in Hrun by done. injection Hrun as _ <-. by left. }
    rewrite ProcessIncomingData_turn in Hrun by done. cbv zeta in Hrun.
    destruct (Z.ltb_spec (QByteArray.size (read_buffer_ d))
                (wrap_int (header_size + wrap_int (declared_length (read_buffer_ d)))))
      as [Hwait|_].
    + injection Hrun as _ <-. right.
      pose proof (wrap_int_header_le (declared_length (read_buffer_ d))
                    (read_quint32_range _)).
      lia.
    + destruct (ProcessIncomingData w fuel _) as [[events' d'']|] eqn:Hrest; [|done].
      injection Hrun as _ <-. by eapply IH.
Qed.

(** ** Fuel *)

(** A pass that ends with some fuel ends the same way with more. *)
Lemma ProcessIncomingData_more_fuel (w : World) (fuel : nat) :
  forall d result fuel',
    ProcessIncomingData w fuel d = Some result ->
    (fuel <= fuel')%nat ->
    ProcessIncomingData w fuel' d = Some result.
Proof.
  induction fuel as [|fuel IH]; intros d result fuel' Hrun Hle.
  - cbn [ProcessIncomingData] in Hrun.
    destruct (Z.ltb_spec (QByteArray.size (read_buffer_ d)) (4 * 2)) as [Hshort|_]; [|done].
    rewrite ProcessIncomingData_short by lia. done.
  - destruct (Z.lt_ge_cases (QByteArray.size (read_buffer_ d)) 8) as [Hshort|Hsz].
    { rewrite ProcessIncomingData_short in Hrun |- * by done. done. }
    destruct fuel' as [|fuel']; [lia|].
    rewrite ProcessIncomingData_turn in Hrun |- * by done. cbv zeta in Hrun |- *.
    destruct (_ <? _); [done|].
    destruct (ProcessIncomingData w fuel _) as [[events d'']|] eqn:Hrest; [|done].
    rewrite (IH _ _ fuel' Hrest) by lia. done.
Qed.

Lemma dispatch_read_buffer_cases (w : World) (opcode length : Z) (data : QByteArray)
    (d : DiscordRPC) :
  read_buffer_ (dispatch w opcode length data d) = read_buffer_ d
  \/ read_buffer_ (dispatch w opcode length data d) = [].
Proof.
  unfold dispatch.
  destruct (Opcode_of opcode) as [[| | | |]|]; try by left.
  - left. apply HandleMessage_read_buffer.
  - unfold socket_disconnectFromServer.
    destruct (sock_state (socket_ d)); try (by left);
      (destruct (closes_at_once w); [by right|by left]).
Qed.

(** Every turn that extracts a frame shortens the buffer, except at a
    header that declares 2^32 - 8 bytes.  So a pass with more fuel than the
    buffer has bytes ends, unless it meets such a header at the front of
    what is left of the buffer. *)
Lemma pass_ends_unless_length_wraps (w : World) (fuel : nat) :
  forall d,
    (length (read_buffer_ d) < fuel)%nat ->
    ProcessIncomingData w fuel d = None ->
    exists k : nat,
      8 <= QByteArray.size (drop k (read_buffer_ d))
      /\ declared_length (drop k (read_buffer_ d)) = 2 ^ 32 - 8.
Proof.
  induction fuel as [|fuel IH]; intros d Hfuel Hrun; [lia|].
  destruct (Z.lt_ge_cases (QByteArray.size (read_buffer_ d)) 8) as [Hshort|Hsz].
  { by rewrite ProcessIncomingData_short in Hrun. }
  rewrite ProcessIncomingData_turn in Hrun by done. cbv zeta in Hrun.
  destruct (_ <? _); [done|].
  set (n := wrap_quint32 (header_size + declared_length (read_buffer_ d))) in Hrun.
  pose proof (read_quint32_range (drop 4 (read_buffer_ d))) as Hl.
  fold (declared_length (read_buffer_ d)) in Hl.
  assert (Hn : 0 <= n < 2 ^ 32) by (apply Z.mod_pos_bound; lia).
  destruct (Z.eq_dec n 0) as [Hspin|Hmove].
  - exists 0%nat. rewrite drop_0. split; [done|].
    revert Hspin. unfold n, wrap_quint32, header_size.
    change (2 ^ 32) with 4294967296 in *.
    Z.div_mod_to_equations. lia.
  - set (d1 := dispatch _ _ _ _ _) in Hrun.
    destruct (ProcessIncomingData w fuel d1) as [[events d'']|] eqn:Hrest; [done|].
    assert (Hrem : QByteArray.remove_front (read_buffer_ d) n
                   = drop (Z.to_nat (Z.min n (QByteArray.size (read_buffer_ d))))
                          (read_buffer_ d)) by reflexivity.
    destruct (dispatch_read_buffer_cases w (read_quint32 (read_buffer_ d))
                (declared_length (read_buffer_ d))
                (QByteArray.mid (read_buffer_ d) header_size (declared_length (read_buffer_ d)))
                (set_read_buffer (QByteArray.remove_front (read_buffer_ d) n) d))
      as [Hkeep|Hclear]; fold d1 in Hkeep || fold d1 in Hclear.
    + cbn [read_buffer_ set_read_buffer] in Hkeep.
      destruct (IH d1) as (k & Hk8 & Hklen); [|done|].
      { rewrite Hkeep, Hrem, length_drop. unfold QByteArray.size in *. lia. }
      rewrite Hkeep, Hrem, drop_drop in Hk8, Hklen. eauto.
    + destruct (IH d1) as (k & Hk8 & _);
        [rewrite Hclear; unfold QByteArray.size in Hsz; cbn; lia|done|].
      rewrite Hclear, drop_nil in Hk8. unfold QByteArray.size in Hk8. cbn in Hk8. lia.
Qed.

(** C2, the failing input.  The buffer holds one header and nothing else:
    opcode 0, declared length 2^32 - 1.  The declared payload exceeds the
    buffered bytes, yet the pass does not wait: converted to [int] the
    length is -1, the test "fewer than 8 - 1 bytes buffered" fails, and the
    loop hands (0, empty payload) to the [switch] and removes
    (8 + length) mod 2^32 = 7 bytes, leaving the header's last byte. *)
Theorem oversized_length_is_not_awaited (w : World) (fuel : nat) :
  let d := set_read_buffer [x00; x00; x00; x00; xff; xff; xff; xff] (sample_open Connected) in
  QByteArray.size (read_buffer_ d) = header_size
  /\ declared_length (read_buffer_ d) = 2 ^ 32 - 1
  /\ ProcessIncomingData w (S fuel) d = Some ([(0, [])], set_read_buffer [xff] d).
Proof.
  cbv zeta. split; [reflexivity|]. split; [reflexivity|].
  rewrite (ProcessIncomingData_extract w fuel _ 0 (2 ^ 32 - 1) [] [xff]);
    [|by vm_compute|reflexivity..].
  change (dispatch w 0 _ _ ?x) with x.
  by rewrite ProcessIncomingData_short.
Qed.

(** The same conversion lets a pass run forever: a header that declares
    2^32 - 8 bytes passes the test, and 8 + length, computed in 32 bits, is
    0, so nothing is removed and the loop meets the same buffer again. *)
Lemma declared_length_minus_8_never_ends (w : World) (opcode : Z) (rest : QByteArray) :
  0 <= opcode < 2 ^ 32 -> opcode <> Opcode_value Close ->
  forall fuel d,
    read_buffer_ d = frame_bytes opcode (2 ^ 32 - 8) rest ->
    ProcessIncomingData w fuel d = None.
Proof.
  intros Hop Hclose. induction fuel as [|fuel IH]; intros d Hbuf.
  - cbn [ProcessIncomingData]. rewrite Hbuf.
    destruct (Z.ltb_spec (QByteArray.size (frame_bytes opcode (2 ^ 32 - 8) rest)) (4 * 2))
      as [Hlt|_]; [|done].
    unfold frame_bytes, QByteArray.size in Hlt.
    rewrite !length_app, !quint32_bytes_length in Hlt. lia.
  - rewrite (ProcessIncomingData_extract w fuel d opcode (2 ^ 32 - 8)
               (QByteArray.mid (read_buffer_ d) header_size (2 ^ 32 - 8)) (read_buffer_ d)).
    + rewrite IH; [done|]. rewrite dispatch_read_buffer; [done|]. by right; left.
    + rewrite Hbuf. unfold frame_bytes, QByteArray.size.
      rewrite !length_app, !quint32_bytes_length. lia.
    + rewrite Hbuf. unfold frame_bytes. by apply read_quint32_bytes.
    + rewrite Hbuf. unfold declared_length, frame_bytes.
      change (drop 4 (quint32_bytes opcode ++ ?l)) with l.
      by apply read_quint32_bytes.
    + change (wrap_int (header_size + wrap_int (2 ^ 32 - 8))) with 0.
      apply Z.ltb_ge. unfold QByteArray.size. lia.
    + reflexivity.
    + change (wrap_quint32 (header_size + (2 ^ 32 - 8))) with 0.
      unfold QByteArray.remove_front. rewrite Z.min_l by (unfold QByteArray.size; lia).
      reflexivity.
Qed.

(** ** The activity object *)

(** C3 (as amended).  A presence with a non-empty name and a non-empty
    state and every other field default (type 0 included) is encoded as an
    activity with exactly five keys: [type] and [status_display_type], both
    0, because type 0 lies in the range 0..5 that the code emits; [name];
    [state]; and [instance], false.  There is no [details], [timestamps],
    [assets], [party] or [secrets] key. *)
Theorem default_presence_activity (n s : string) :
  isEmpty n = false -> isEmpty s = false ->
  activity_object (presence_named n s)
  = <["instance" := JBool false]>
      (<["state" := JString s]>
         (<["name" := JString n]>
            (<["status_display_type" := JNumber 0]>
               (<["type" := JNumber 0]> ∅))))
  /\ dom (activity_object (presence_named n s))
     = ({[ "type"; "status_display_type"; "name"; "state"; "instance" ]} : gset string).
Proof.
  intros Hn Hs.
  assert (Heq : activity_object (presence_named n s)
                = <["instance" := JBool false]>
                    (<["state" := JString s]>
                       (<["name" := JString n]>
                          (<["status_display_type" := JNumber 0]>
                             (<["type" := JNumber 0]> ∅))))).
  { unfold activity_object, presence_named. cbn -[isEmpty insert empty].
    by rewrite Hn, Hs. }
  split; [done|].
  rewrite Heq, !dom_insert_L, dom_empty_L. set_solver.
Qed.

Lemma default_presence_activity_witness :
  activity_object sample_presence
  = <["instance" := JBool false]>
      (<["state" := JString "Track - Artist"]>
         (<["name" := JString "Listening"]>
            (<["status_display_type" := JNumber 0]>
               (<["type" := JNumber 0]> ∅))))
  /\ dom (activity_object sample_presence)
     = ({[ "type"; "status_display_type"; "name"; "state"; "instance" ]} : gset string).
Proof.
  apply (default_presence_activity "Listening" "Track - Artist"); reflexivity.
Defined.

(** C3, as stated, fails on the sample presence: its activity has a [type]
    key (and a [status_display_type] key), so [name], [state] and
    [instance] are not its only keys. *)
Lemma default_presence_activity_has_type :
  activity_object sample_presence !! "type" = Some (JNumber 0)
  /\ activity_object sample_presence !! "status_display_type" = Some (JNumber 0)
  /\ ~ (forall key : string,
          is_Some (activity_object sample_presence !! key) ->
          key ∈ ["name"; "state"; "instance"]%string).
Proof.
  split; [by vm_compute|]. split; [by vm_compute|].
  intros Honly.
  assert (Htype : is_Some (activity_object sample_presence !! "type"))
    by (exists (JNumber 0); by vm_compute).
  apply Honly in Htype.
  repeat (apply elem_of_cons in Htype as [Htype|Htype]; [discriminate|]).
  by apply elem_of_nil in Htype.
Qed.

(** ** The reconnect delay *)

Lemma run_app (fuel : nat) (xs ys : list (World * Input)) (d : DiscordRPC) :
  run fuel (xs ++ ys) d =
    match run fuel xs d with
    | Some d' => run fuel ys d'
    | None => None
    end.
Proof.
  revert d. induction xs as [|[w i] xs IH]; intros d; [done|].
  cbn [run app]. destruct (step w fuel i d); [apply IH|done].
Qed.

Lemma ConnectToDiscord_deaf (w : World) (d : DiscordRPC) :
  deaf w -> state_ d = Disconnected ->
  ConnectToDiscord w d
  = ScheduleReconnect
      (set_state Disconnected (socket_set_state UnconnectedState (set_state Connecting d))).
Proof.
  intros Hdeaf Hst. unfold ConnectToDiscord. rewrite Hst. cbn [State_eqb negb].
  unfold deaf in Hdeaf. by rewrite Hdeaf.
Qed.

Lemma ConnectToDiscord_found (w : World) (d : DiscordRPC) (path : string) :
  List.find (listening w) (socket_paths w) = Some path -> state_ d = Disconnected ->
  ConnectToDiscord w d = socket_connected_to path (set_state Connecting d).
Proof.
  intros Hfound Hst. unfold ConnectToDiscord. rewrite Hst. cbn [State_eqb negb].
  by rewrite Hfound.
Qed.

(** One failed attempt: the timer is armed with the delay as it was, and
    the stored delay is doubled up to the ceiling. *)
Lemma failed_attempt (w : World) (d : DiscordRPC) :
  deaf w -> state_ d = Disconnected ->
  0 < reconnect_delay_ d <= kReconnectMaxDelayMs ->
  state_ (ConnectToDiscord w d) = Disconnected
  /\ reconnect_timer_ (ConnectToDiscord w d) = Some (reconnect_delay_ d)
  /\ reconnect_delay_ (ConnectToDiscord w d)
     = Z.min (reconnect_delay_ d * 2) kReconnectMaxDelayMs.
Proof.
  intros Hdeaf Hst Hrange. rewrite ConnectToDiscord_deaf by done.
  unfold ScheduleReconnect. cbn.
  unfold kReconnectMaxDelayMs in *. rewrite wrap_int_small; [done|lia].
Qed.

Lemma doubling_step (a p : Z) :
  0 < a -> 1 <= p ->
  Z.min (Z.min (a * 2) kReconnectMaxDelayMs * p) kReconnectMaxDelayMs
  = Z.min (a * (2 * p)) kReconnectMaxDelayMs.
Proof.
  intros Ha Hp. unfold kReconnectMaxDelayMs. nia.
Qed.

Lemma timer_attempts_fail (fuel : nat) (ws : list World) :
  Forall deaf ws ->
  forall d,
    state_ d = Disconnected ->
    is_Some (reconnect_timer_ d) ->
    0 < reconnect_delay_ d <= kReconnectMaxDelayMs ->
    exists d',
      run fuel (map (fun w => (w, SigTimeout)) ws) d = Some d'
      /\ state_ d' = Disconnected
      /\ is_Some (reconnect_timer_ d')
      /\ reconnect_delay_ d'
         = Z.min (reconnect_delay_ d * 2 ^ Z.of_nat (length ws)) kReconnectMaxDelayMs.
Proof.
  induction 1 as [|w ws Hdeaf _ IH]; intros d Hst Htimer Hrange.
  - exists d. cbn [run map length]. repeat split; try done.
    change (2 ^ Z.of_nat 0) with 1. lia.
  - cbn [run map step]. destruct Htimer as [ms Hms]. rewrite Hms.
    unfold OnReconnectTimer.
    set (d0 := set_reconnect_timer None d).
    destruct (failed_attempt w d0 Hdeaf Hst Hrange) as (Hst1 & Htimer1 & Hdelay1).
    destruct (IH (ConnectToDiscord w d0)) as (d' & Hrun & Hst' & Htimer' & Hdelay');
      [done|by rewrite Htimer1|rewrite Hdelay1; cbn; unfold kReconnectMaxDelayMs in *; lia|].
    exists d'. repeat split; try done.
    rewrite Hdelay', Hdelay1. change (reconnect_delay_ d0) with (reconnect_delay_ d).
    cbn [length]. rewrite Nat2Z.inj_succ, Z.pow_succ_r by lia.
    apply doubling_step; [lia|]. pose proof (Z.pow_pos_nonneg 2 (Z.of_nat (length ws))). lia.
Qed.

Lemma attempts_fail (fuel : nat) (ws : list World) (d : DiscordRPC) :
  Forall deaf ws ->
  state_ d = Disconnected ->
  0 < reconnect_delay_ d <= kReconnectMaxDelayMs ->
  exists d',
    run fuel (attempts ws) d = Some d'
    /\ state_ d' = Disconnected
    /\ (ws <> [] -> is_Some (reconnect_timer_ d'))
    /\ reconnect_delay_ d'
       = Z.min (reconnect_delay_ d * 2 ^ Z.of_nat (length ws)) kReconnectMaxDelayMs.
Proof.
  intros Hdeaf Hst Hrange. destruct Hdeaf as [|w ws Hw Hws].
  - exists d. cbn [attempts run length]. repeat split; try done.
    change (2 ^ Z.of_nat 0) with 1. lia.
  - cbn [attempts run step]. unfold Initialize. rewrite Hst. cbn [State_eqb negb].
    destruct (failed_attempt w d Hw Hst Hrange) as (Hst1 & Htimer1 & Hdelay1).
    destruct (timer_attempts_fail fuel ws Hws (ConnectToDiscord w d))
      as (d' & Hrun & Hst' & Htimer' & Hdelay');
      [done|by rewrite Htimer1|rewrite Hdelay1; unfold kReconnectMaxDelayMs in *; lia|].
    exists d'. repeat split; try done.
    rewrite Hdelay', Hdelay1.
    cbn [length]. rewrite Nat2Z.inj_succ, Z.pow_succ_r by lia.
    apply doubling_step; [lia|]. pose proof (Z.pow_pos_nonneg 2 (Z.of_nat (length ws))). lia.
Qed.

Lemma attempts_snoc (ws : list World) (w : World) :
  attempts (ws ++ [w])
  = attempts ws ++ [(w, if decide (ws = []) then CallInitialize else SigTimeout)].
Proof.
  destruct ws as [|w0 ws]; [done|].
  cbn [attempts app]. by rewrite map_app.
Qed.

(** One failure, of either kind: the object is [Disconnected], the timer is
    armed with the delay as it was, and the stored delay is doubled up to
    the ceiling. *)
Lemma failure_step (w : World) (i : Input) (d : DiscordRPC) :
  connection_failure w i d ->
  0 < reconnect_delay_ d <= kReconnectMaxDelayMs ->
  exists d',
    step w 0 i d = Some d'
    /\ state_ d' = Disconnected
    /\ reconnect_timer_ d' = Some (reconnect_delay_ d)
    /\ reconnect_delay_ d' = Z.min (reconnect_delay_ d * 2) kReconnectMaxDelayMs.
Proof.
  intros Hfail Hrange. destruct i; cbn [connection_failure] in Hfail; try done.
  - destruct Hfail as [Hst Hdeaf].
    exists (ConnectToDiscord w d). cbn [step]. unfold Initialize. rewrite Hst.
    cbn [State_eqb negb]. split; [done|]. by apply failed_attempt.
  - exists (OnDisconnected (socket_set_state UnconnectedState d)). cbn [step].
    split; [by destruct (sock_state (socket_ d))|].
    unfold OnDisconnected, ScheduleReconnect. cbn.
    unfold kReconnectMaxDelayMs in *. rewrite wrap_int_small; [done|lia].
  - destruct Hfail as (Hst & Hdeaf & [ms Hms]).
    exists (ConnectToDiscord w (set_reconnect_timer None d)). cbn [step]. rewrite Hms.
    split; [done|]. by apply (failed_attempt w (set_reconnect_timer None d)).
Qed.

Lemma failures_double (inputs : list (World * Input)) :
  forall d,
    0 < reconnect_delay_ d <= kReconnectMaxDelayMs ->
    failures_in_a_row inputs d ->
    exists d',
      run 0 inputs d = Some d'
      /\ reconnect_delay_ d'
         = Z.min (reconnect_delay_ d * 2 ^ Z.of_nat (length inputs)) kReconnectMaxDelayMs
      /\ (inputs <> [] ->
          state_ d' = Disconnected
          /\ reconnect_timer_ d'
             = Some (Z.min (reconnect_delay_ d * 2 ^ (Z.of_nat (length inputs) - 1))
                       kReconnectMaxDelayMs)).
Proof.
  induction inputs as [|[w i] rest IH]; intros d Hrange Hfail.
  - exists d. cbn [run length]. split; [done|]. split; [|done].
    change (2 ^ Z.of_nat 0) with 1. lia.
  - destruct Hfail as [Hfail Hrest].
    destruct (failure_step w i d Hfail Hrange) as (d1 & Hstep & Hst1 & Htimer1 & Hdelay1).
    rewrite Hstep in Hrest.
    destruct (IH d1) as (d' & Hrun & Hdelay' & Hrest');
      [rewrite Hdelay1; unfold kReconnectMaxDelayMs in *; lia|done|].
    exists d'. cbn [run]. rewrite Hstep. split; [done|].
    pose proof (Z.pow_pos_nonneg 2 (Z.of_nat (length rest))) as Hpow.
    split.
    + rewrite Hdelay', Hdelay1. cbn [length].
      rewrite Nat2Z.inj_succ, Z.pow_succ_r by lia.
      apply doubling_step; lia.
    + intros _. cbn [length].
      replace (Z.of_nat (S (length rest)) - 1) with (Z.of_nat (length rest)) by lia.
      destruct rest as [|x rest'].
      * cbn [run] in Hrun. injection Hrun as <-. split; [done|].
        rewrite Htimer1. f_equal.
        change (2 ^ Z.of_nat (length (@nil (World * Input)))) with 1. lia.
      * destruct Hrest' as [Hst' Htimer']; [done|]. split; [done|].
        rewrite Htimer', Hdelay1. f_equal.
        set (k := length rest') in *.
        replace (Z.of_nat (length (x :: rest')) - 1) with (Z.of_nat k)
          by (cbn [length]; fold k; lia).
        replace (Z.of_nat (length (x :: rest'))) with (Z.succ (Z.of_nat k))
          by (cbn [length]; fold k; lia).
        rewrite Z.pow_succ_r by lia.
        pose proof (Z.pow_pos_nonneg 2 (Z.of_nat k)).
        apply doubling_step; lia.
Qed.

(** C6.  A failure is a connection attempt that finds no peer or the
    socket's [disconnected()]; a success is the socket's [connected()],
    handled by [OnConnected].  Starting from the floor, in any state, after
    n failures in a row, of either kind and in any order, the stored delay
    is min(floor * 2^n, ceiling), and after the first of them the object is
    [Disconnected] with the timer armed for min(floor * 2^(n-1), ceiling).
    [OnConnected] always leaves the floor: when the next attempt finds the
    peer, the stored delay is the floor again once the socket has reported
    the connection.  A connection that then drops, before any READY
    message, is the first failure of a new sequence and leaves twice the
    floor, however many failures came before it. *)
Theorem reconnect_delay_sequence (inputs : list (World * Input)) (w : World) (d : DiscordRPC) :
  reconnect_delay_ d = kReconnectMinDelayMs ->
  failures_in_a_row inputs d ->
  (forall w0 d0, reconnect_delay_ (OnConnected w0 d0) = kReconnectMinDelayMs)
  /\ exists d',
    run 0 inputs d = Some d'
    /\ reconnect_delay_ d'
       = Z.min (kReconnectMinDelayMs * 2 ^ Z.of_nat (length inputs)) kReconnectMaxDelayMs
    /\ (inputs <> [] ->
        state_ d' = Disconnected
        /\ reconnect_timer_ d'
           = Some (Z.min (kReconnectMinDelayMs * 2 ^ (Z.of_nat (length inputs) - 1))
                     kReconnectMaxDelayMs))
    /\ (~ deaf w ->
        state_ d' = Disconnected ->
        forall i,
          i = CallInitialize \/ (i = SigTimeout /\ is_Some (reconnect_timer_ d')) ->
          exists d2,
            run 0 [(w, i); (w, SigConnected)] d' = Some d2
            /\ state_ d2 = SentHandshake
            /\ reconnect_delay_ d2 = kReconnectMinDelayMs
            /\ forall w', exists d3,
                 step w' 0 SigDisconnected d2 = Some d3
                 /\ state_ d3 = Disconnected
                 /\ reconnect_timer_ d3 = Some kReconnectMinDelayMs
                 /\ reconnect_delay_ d3 = kReconnectMinDelayMs * 2).
Proof.
  intros Hfloor Hfail. split; [done|].
  destruct (failures_double inputs d) as (d' & Hrun & Hdelay' & Hrest'); [|done|].
  { rewrite Hfloor. by vm_compute. }
  rewrite Hfloor in Hdelay', Hrest'.
  exists d'. do 3 (split; [done|]).
  intros Hw Hst' i Hi. unfold deaf in Hw.
  destruct (List.find (listening w) (socket_paths w)) as [path|] eqn:Hfound; [|done].
  assert (Hattempt : exists d0,
             step w 0 i d' = Some (socket_connected_to path (set_state Connecting d0))).
  { destruct Hi as [-> | [-> [ms Hms]]]; cbn [step].
    - exists d'. unfold Initialize. rewrite Hst'. cbn [State_eqb negb].
      by rewrite (ConnectToDiscord_found w d' path).
    - exists (set_reconnect_timer None d'). rewrite Hms. unfold OnReconnectTimer.
      by rewrite (ConnectToDiscord_found w _ path). }
  destruct Hattempt as [d0 Hattempt].
  cbn [run]. rewrite Hattempt.
  cbn [step socket_connected_to set_socket socket_ sock_state].
  eexists. split; [reflexivity|]. split; [done|]. split; [done|].
  intros w'. eexists. split; [reflexivity|]. by vm_compute.
Qed.

(** A session that is dropped while the handshake is out, and then three
    attempts that find no peer: four failures, 8000 ms stored and the
    timer armed for 4000 ms. *)
Lemma reconnect_delay_sequence_witness :
  let deaf_world := sample_world false false in
  let w := sample_world true false in
  let inputs := [(w, SigDisconnected); (deaf_world, SigTimeout);
                 (deaf_world, SigTimeout); (deaf_world, SigTimeout)] in
  (forall w0 d0, reconnect_delay_ (OnConnected w0 d0) = kReconnectMinDelayMs)
  /\ exists d',
    run 0 inputs sample_handshaking = Some d'
    /\ reconnect_delay_ d' = 8000
    /\ (inputs <> [] ->
        state_ d' = Disconnected
        /\ reconnect_timer_ d' = Some 4000)
    /\ (~ deaf w ->
        state_ d' = Disconnected ->
        forall i,
          i = CallInitialize \/ (i = SigTimeout /\ is_Some (reconnect_timer_ d')) ->
          exists d2,
            run 0 [(w, i); (w, SigConnected)] d' = Some d2
            /\ state_ d2 = SentHandshake
            /\ reconnect_delay_ d2 = kReconnectMinDelayMs
            /\ forall w', exists d3,
                 step w' 0 SigDisconnected d2 = Some d3
                 /\ state_ d3 = Disconnected
                 /\ reconnect_timer_ d3 = Some kReconnectMinDelayMs
                 /\ reconnect_delay_ d3 = kReconnectMinDelayMs * 2).
Proof.
  cbv zeta.
  apply (reconnect_delay_sequence
           [(sample_world true false, SigDisconnected); (sample_world false false, SigTimeout);
            (sample_world false false, SigTimeout); (sample_world false false, SigTimeout)]
           (sample_world true false) sample_handshaking).
  - reflexivity.
  - cbn [failures_in_a_row connection_failure].
    split; [by vm_compute|].
    vm_compute. repeat split; by eexists.
Defined.

(** ** Where the delay is reset *)

Lemma HandleMessage_fields (w : World) (data : QByteArray) (d : DiscordRPC) :
  HandleMessage w data d = d
  \/ (state_ d = SentHandshake /\ HandleMessage w data d = set_state Connected d).
Proof.
  unfold HandleMessage.
  destruct (fromJson w data) as [[| | | | |obj]|]; try by left.
  destruct (state_ d) eqn:Hst; cbn [State_eqb]; try by left.
  destruct (_ && _); [by right|by left].
Qed.

Lemma socket_disconnectFromServer_delay_at_floor (w : World) (d : DiscordRPC) :
  delay_at_floor d -> delay_at_floor (socket_disconnectFromServer w d).
Proof.
  intros Hinv. unfold socket_disconnectFromServer.
  destruct (sock_state (socket_ d)); try done;
    (destruct (closes_at_once w); [by intros [?|?]|done]).
Qed.

Lemma dispatch_delay_at_floor (w : World) (opcode length : Z) (data : QByteArray)
    (d : DiscordRPC) :
  delay_at_floor d -> delay_at_floor (dispatch w opcode length data d).
Proof.
  intros Hinv. unfold dispatch.
  destruct (Opcode_of opcode) as [[| | | |]|]; try done.
  - destruct (HandleMessage_fields w data d) as [->|[Hst ->]]; [done|].
    intros _. apply Hinv. by left.
  - by apply socket_disconnectFromServer_delay_at_floor.
Qed.

Lemma ProcessIncomingData_delay_at_floor (w : World) (fuel : nat) :
  forall d events d',
    ProcessIncomingData w fuel d = Some (events, d') ->
    delay_at_floor d -> delay_at_floor d'.
Proof.
  induction fuel as [|fuel IH]; intros d events d' Hrun Hinv.
  - cbn [ProcessIncomingData] in Hrun.
    destruct (_ <? _); [|done]. by injection Hrun as _ <-.
  - cbn [ProcessIncomingData] in Hrun.
    destruct (_ <? _); [by injection Hrun as _ <-|].
    destruct (_ <? _); [by injection Hrun as _ <-|].
    destruct (ProcessIncomingData w fuel _) as [[events' d'']|] eqn:Hrest; [|done].
    injection Hrun as _ <-. eapply IH; [exact Hrest|].
    by apply dispatch_delay_at_floor.
Qed.

Lemma ConnectToDiscord_delay_at_floor (w : World) (d : DiscordRPC) :
  delay_at_floor d -> delay_at_floor (ConnectToDiscord w d).
Proof.
  intros Hinv. unfold ConnectToDiscord.
  destruct (negb (State_eqb (state_ d) Disconnected)); [done|].
  destruct (List.find _ _); by intros [?|?].
Qed.

Lemma step_delay_at_floor (w : World) (fuel : nat) (i : Input) (d d' : DiscordRPC) :
  step w fuel i d = Some d' -> delay_at_floor d -> delay_at_floor d'.
Proof.
  intros Hstep Hinv. destruct i; cbn [step] in Hstep.
  - injection Hstep as <-. unfold Initialize.
    destruct (negb _); [done|]. by apply ConnectToDiscord_delay_at_floor.
  - injection Hstep as <-. by intros [?|?].
  - injection Hstep as <-. unfold UpdatePresence.
    destruct (State_eqb (state_ d) Connected) eqn:Hst; [|done].
    cbn. unfold SendFrame. cbn. by rewrite Hst.
  - injection Hstep as <-. unfold ClearPresence, UpdatePresence.
    destruct (State_eqb (state_ d) Connected) eqn:Hst; [|done].
    cbn. unfold SendFrame. cbn. by rewrite Hst.
  - destruct (sock_state (socket_ d)); by injection Hstep as <-.
  - destruct (sock_state (socket_ d)); injection Hstep as <-; try done;
      by intros [?|?].
  - destruct (sock_state (socket_ d)); try (by injection Hstep as <-);
      (destruct (OnReadyRead w fuel readAll d) as [[events d'']|] eqn:Hread; [|done];
       injection Hstep as <-;
       eapply ProcessIncomingData_delay_at_floor; [exact Hread|done]).
  - by injection Hstep as <-.
  - destruct (reconnect_timer_ d); injection Hstep as <-; [|done].
    by apply ConnectToDiscord_delay_at_floor.
Qed.

Lemma reachable_delay_at_floor (d : DiscordRPC) : reachable d -> delay_at_floor d.
Proof.
  induction 1 as [application_id|w fuel i d d' _ IH Hstep]; [done|].
  by eapply step_delay_at_floor.
Qed.

(** What a step can do to the stored delay: leave it, double it up to the
    ceiling (one call of [ScheduleReconnect]), or, in [OnConnected] alone,
    set it to the floor. *)
Lemma socket_disconnectFromServer_delay (w : World) (d : DiscordRPC) :
  reconnect_delay_ (socket_disconnectFromServer w d) = reconnect_delay_ d
  \/ (read_buffer_ (socket_disconnectFromServer w d) = []
      /\ reconnect_delay_ (socket_disconnectFromServer w d) = next_delay (reconnect_delay_ d)).
Proof.
  unfold socket_disconnectFromServer.
  destruct (sock_state (socket_ d)); try (by left);
    (destruct (closes_at_once w); [by right|by left]).
Qed.

Lemma dispatch_delay (w : World) (opcode length : Z) (data : QByteArray) (d : DiscordRPC) :
  reconnect_delay_ (dispatch w opcode length data d) = reconnect_delay_ d
  \/ (read_buffer_ (dispatch w opcode length data d) = []
      /\ reconnect_delay_ (dispatch w opcode length data d) = next_delay (reconnect_delay_ d)).
Proof.
  unfold dispatch.
  destruct (Opcode_of opcode) as [[| | | |]|]; try (by left).
  - left. by destruct (HandleMessage_fields w data d) as [->|[_ ->]].
  - apply socket_disconnectFromServer_delay.
Qed.

Lemma ProcessIncomingData_delay (w : World) (fuel : nat) :
  forall d events d',
    ProcessIncomingData w fuel d = Some (events, d') ->
    reconnect_delay_ d' = reconnect_delay_ d
    \/ reconnect_delay_ d' = next_delay (reconnect_delay_ d).
Proof.
  induction fuel as [|fuel IH]; intros d events d' Hrun.
  - cbn [ProcessIncomingData] in Hrun.
    destruct (_ <? _); [|done]. injection Hrun as _ <-. by left.
  - cbn [ProcessIncomingData] in Hrun.
    destruct (_ <? _); [injection Hrun as _ <-; by left|].
    destruct (_ <? _); [injection Hrun as _ <-; by left|].
    set (d1 := dispatch _ _ _ _ _) in Hrun.
    destruct (ProcessIncomingData w fuel d1) as [[events' d'']|] eqn:Hrest; [|done].
    injection Hrun as _ <-.
    destruct (dispatch_delay w (read_quint32 (read_buffer_ d))
                (read_quint32 (drop 4 (read_buffer_ d)))
                (QByteArray.mid (read_buffer_ d) header_size
                   (read_quint32 (drop 4 (read_buffer_ d))))
                (set_read_buffer
                   (QByteArray.remove_front (read_buffer_ d)
                      (wrap_quint32 (header_size + read_quint32 (drop 4 (read_buffer_ d)))))
                   d))
      as [Hsame|[Hclear Hnext]]; fold d1 in Hsame || fold d1 in Hclear, Hnext.
    + destruct (IH _ _ _ Hrest) as [H|H]; rewrite H, Hsame; [by left|by right].
    + rewrite ProcessIncomingData_short in Hrest by (by rewrite Hclear).
      injection Hrest as _ <-. by right.
Qed.

Lemma ConnectToDiscord_delay (w : World) (d : DiscordRPC) :
  reconnect_delay_ (ConnectToDiscord w d) = reconnect_delay_ d
  \/ reconnect_delay_ (ConnectToDiscord w d) = next_delay (reconnect_delay_ d).
Proof.
  unfold ConnectToDiscord.
  destruct (negb (State_eqb (state_ d) Disconnected)); [by left|].
  destruct (List.find _ _); [by left|by right].
Qed.

Lemma step_delay (w : World) (fuel : nat) (i : Input) (d d' : DiscordRPC) :
  step w fuel i d = Some d' ->
  reconnect_delay_ d' = reconnect_delay_ d
  \/ reconnect_delay_ d' = next_delay (reconnect_delay_ d)
  \/ (i = SigConnected /\ reconnect_delay_ d' = kReconnectMinDelayMs).
Proof.
  intros Hstep. destruct i; cbn [step] in Hstep.
  - injection Hstep as <-. unfold Initialize.
    destruct (negb _); [by left|].
    destruct (ConnectToDiscord_delay w d) as [H|H]; [by left|by right; left].
  - injection Hstep as <-.
    destruct d as [application_id [sock server writes] timer st nonce delay buffer].
    unfold Shutdown, socket_disconnectFromServer.
    destruct sock; cbn; try (by left);
      (destruct (closes_at_once w); [by right; left|by left]).
  - injection Hstep as <-. left. unfold UpdatePresence.
    destruct (State_eqb (state_ d) Connected) eqn:Hst; [|done].
    cbn. unfold SendFrame. cbn. by rewrite Hst.
  - injection Hstep as <-. left. unfold ClearPresence, UpdatePresence.
    destruct (State_eqb (state_ d) Connected) eqn:Hst; [|done].
    cbn. unfold SendFrame. cbn. by rewrite Hst.
  - destruct (sock_state (socket_ d)); injection Hstep as <-; try (by left).
    by right; right.
  - destruct (sock_state (socket_ d)); injection Hstep as <-; try (by left);
      by right; left.
  - destruct (sock_state (socket_ d)); try (injection Hstep as <-; by left);
      (destruct (OnReadyRead w fuel readAll d) as [[events d'']|] eqn:Hread; [|done];
       injection Hstep as <-;
       destruct (ProcessIncomingData_delay w fuel _ _ _ Hread) as [H|H];
       [by left|by right; left]).
  - injection Hstep as <-. by left.
  - destruct (reconnect_timer_ d); injection Hstep as <-; [|by left].
    destruct (ConnectToDiscord_delay w (set_reconnect_timer None d)) as [H|H];
      [by left|by right; left].
Qed.

(** The stored delay never leaves the interval from the floor to the
    ceiling. *)
Lemma reachable_delay_range (d : DiscordRPC) :
  reachable d -> kReconnectMinDelayMs <= reconnect_delay_ d <= kReconnectMaxDelayMs.
Proof.
  induction 1 as [application_id|w fuel i d d' _ IH Hstep]; [by vm_compute|].
  destruct (step_delay w fuel i d d' Hstep) as [->|[->|[_ ->]]];
    [done| |by vm_compute].
  unfold next_delay, kReconnectMinDelayMs, kReconnectMaxDelayMs in *.
  rewrite wrap_int_small; lia.
Qed.

Lemma HandleMessage_reconnect_delay (w : World) (data : QByteArray) (d : DiscordRPC) :
  reconnect_delay_ (HandleMessage w data d) = reconnect_delay_ d.
Proof.
  by destruct (HandleMessage_fields w data d) as [->|[_ ->]].
Qed.

(** C4 (as amended).  The stored delay is reset to the floor by
    [OnConnected], the step in which the socket has connected and the
    handshake is sent (entering [SentHandshake]), and by that step only: a
    step that brings a delay above the floor down to the floor is the
    delivery of [connected()].  Handling a message, the ready message
    included, leaves the stored delay as it is.  In every state the object
    can reach, the delay is the floor after a step that ends in
    [Connected]. *)
Theorem delay_is_reset_when_the_handshake_is_sent
    (w : World) (fuel : nat) (i : Input) (data : QByteArray) (d d' : DiscordRPC) :
  reachable d ->
  step w fuel i d = Some d' ->
  (state_ (OnConnected w d) = SentHandshake
   /\ reconnect_delay_ (OnConnected w d) = kReconnectMinDelayMs)
  /\ (reconnect_delay_ d <> kReconnectMinDelayMs ->
      reconnect_delay_ d' = kReconnectMinDelayMs -> i = SigConnected)
  /\ reconnect_delay_ (HandleMessage w data d) = reconnect_delay_ d
  /\ (state_ d' = Connected -> reconnect_delay_ d' = kReconnectMinDelayMs).
Proof.
  intros Hreach Hstep. split; [done|]. split; [|split].
  - intros Hraised Hfloor.
    pose proof (reachable_delay_range d Hreach) as Hrange.
    destruct (step_delay w fuel i d d' Hstep) as [Hsame|[Hnext|[Hi _]]];
      [congruence| |done].
    exfalso. revert Hnext. rewrite Hfloor.
    unfold next_delay, kReconnectMinDelayMs, kReconnectMaxDelayMs in *.
    rewrite wrap_int_small; lia.
  - apply HandleMessage_reconnect_delay.
  - intros Hst. apply (reachable_delay_at_floor d'); [|by right].
    by eapply reachable_step.
Qed.

Lemma sample_handshaking_reachable : reachable sample_handshaking.
Proof.
  apply (reachable_step (sample_world true false) 0 SigConnected
           (Initialize (sample_world true false) (Construct "strawberry"))).
  - apply (reachable_step (sample_world true false) 0 CallInitialize (Construct "strawberry")).
    + constructor.
    + reflexivity.
  - reflexivity.
Qed.

Lemma delay_is_reset_when_the_handshake_is_sent_witness :
  (state_ (OnConnected (sample_world true false) sample_handshaking) = SentHandshake
   /\ reconnect_delay_ (OnConnected (sample_world true false) sample_handshaking)
      = kReconnectMinDelayMs)
  /\ (reconnect_delay_ sample_handshaking <> kReconnectMinDelayMs ->
      reconnect_delay_ (set_state Connected sample_handshaking) = kReconnectMinDelayMs ->
      SigReadyRead (encode_frame 1 ready_text) = SigConnected)
  /\ reconnect_delay_ (HandleMessage (sample_world true false) ready_text sample_handshaking)
     = reconnect_delay_ sample_handshaking
  /\ (state_ (set_state Connected sample_handshaking) = Connected ->
      reconnect_delay_ (set_state Connected sample_handshaking) = kReconnectMinDelayMs).
Proof.
  apply (delay_is_reset_when_the_handshake_is_sent
           (sample_world true false) 1 (SigReadyRead (encode_frame 1 ready_text)) ready_text
           sample_handshaking (set_state Connected sample_handshaking)).
  - exact sample_handshaking_reachable.
  - by vm_compute.
Defined.

(** C4, as stated, fails.  A first attempt finds no peer and doubles the
    stored delay to 1000; the next one connects.  The step that sends the
    handshake and enters [SentHandshake] then changes the stored delay,
    from 1000 to the floor, before [Connected] is reached. *)
Lemma handshake_step_changes_the_delay :
  exists d d',
    run 0 [(sample_world false false, CallInitialize); (sample_world true false, SigTimeout)]
        (Construct "strawberry") = Some d
    /\ state_ d = Connecting
    /\ reconnect_delay_ d = 1000
    /\ step (sample_world true false) 0 SigConnected d = Some d'
    /\ state_ d' = SentHandshake
    /\ reconnect_delay_ d' = kReconnectMinDelayMs
    /\ reconnect_delay_ d' <> reconnect_delay_ d.
Proof.
  eexists. eexists.
  split; [by vm_compute|].
  split; [reflexivity|].
  split; [reflexivity|].
  split; [by vm_compute|].
  split; [reflexivity|].
  split; [reflexivity|].
  by vm_compute.
Qed.

(** ** Shutdown *)

Lemma Shutdown_state (w : World) (d : DiscordRPC) : state_ (Shutdown w d) = Disconnected.
Proof. reflexivity. Qed.

(** With the socket unconnected, as on a fresh object, [Shutdown] only
    unarms the timer and sets the state. *)
Lemma Shutdown_unconnected (w : World) (d : DiscordRPC) :
  sock_state (socket_ d) = UnconnectedState ->
  Shutdown w d = set_state Disconnected (set_reconnect_timer None d).
Proof.
  intros Hsock. unfold Shutdown. cbn. by rewrite Hsock.
Qed.

Lemma Shutdown_without_Initialize (w : World) (application_id : string) :
  Shutdown w (Construct application_id) = Construct application_id.
Proof. reflexivity. Qed.

(** A second [Shutdown] in the same surroundings only unarms the timer. *)
Lemma Shutdown_twice (w : World) (d : DiscordRPC) :
  Shutdown w (Shutdown w d) = set_reconnect_timer None (Shutdown w d).
Proof.
  destruct d as [application_id [sock server writes] timer st nonce delay buffer].
  unfold Shutdown, socket_disconnectFromServer.
  destruct sock; cbn; try reflexivity;
    destruct (closes_at_once w); reflexivity.
Qed.

(** C5, the failing run.  [Initialize] finds the peer, the socket reports
    the connection, then [Shutdown] is called.
    - When the transport closes later: [Shutdown] returns with the timer
      unarmed, but the [disconnected()] signal of its own close then runs
      [OnDisconnected], which arms the timer.
    - When the transport closes at once, [OnDisconnected] runs inside
      [Shutdown], after the timer was stopped: [Shutdown] returns with the
      timer armed.
    Either way the timer fires next and a connection attempt starts, with
    no [Initialize] in between. *)
Theorem Shutdown_is_followed_by_a_reconnect :
  (exists d_shut d_sig d_next,
     run 0 [(sample_world true false, CallInitialize); (sample_world true false, SigConnected);
            (sample_world true false, CallShutdown)] (Construct "strawberry") = Some d_shut
     /\ reconnect_timer_ d_shut = None
     /\ step (sample_world true false) 0 SigDisconnected d_shut = Some d_sig
     /\ state_ d_sig = Disconnected
     /\ reconnect_timer_ d_sig = Some kReconnectMinDelayMs
     /\ step (sample_world true false) 0 SigTimeout d_sig = Some d_next
     /\ state_ d_next = Connecting
     /\ sock_state (socket_ d_next) = ConnectedState)
  /\ (exists d_shut d_next,
        run 0 [(sample_world true true, CallInitialize); (sample_world true true, SigConnected);
               (sample_world true true, CallShutdown)] (Construct "strawberry") = Some d_shut
        /\ state_ d_shut = Disconnected
        /\ reconnect_timer_ d_shut = Some kReconnectMinDelayMs
        /\ step (sample_world true true) 0 SigTimeout d_shut = Some d_next
        /\ state_ d_next = Connecting
        /\ sock_state (socket_ d_next) = ConnectedState).
Proof.
  split.
  - eexists. eexists. eexists.
    split; [by vm_compute|].
    split; [reflexivity|].
    split; [by vm_compute|].
    split; [reflexivity|].
    split; [reflexivity|].
    split; [by vm_compute|].
    split; reflexivity.
  - eexists. eexists.
    split; [by vm_compute|].
    split; [reflexivity|].
    split; [reflexivity|].
    split; [by vm_compute|].
    split; reflexivity.
Qed.

(** ** The ready message *)

Lemma HandleMessage_ready (w : World) (data : QByteArray) (obj : gmap string QJsonValue)
    (d : DiscordRPC) :
  fromJson w data = Some (JObject obj) ->
  obj !! "cmd" = Some (JString "DISPATCH") ->
  obj !! "evt" = Some (JString "READY") ->
  HandleMessage w data d
  = if State_eqb (state_ d) SentHandshake then set_state Connected d else d.
Proof.
  intros Hparse Hcmd Hevt. unfold HandleMessage, value_toString.
  by rewrite Hparse, Hcmd, Hevt.
Qed.

(** C7.  A payload that parses as a JSON object with string fields
    [cmd] = "DISPATCH" and [evt] = "READY" is handed to the message handler.
    In [SentHandshake] the state becomes [Connected] and nothing else
    changes; in [Disconnected], [Connecting] and [Connected] nothing
    changes.  The same holds end to end, when the payload arrives as one
    [Frame]-opcode frame in a read. *)
Theorem ready_message_enters_Connected
    (w : World) (data : QByteArray) (obj : gmap string QJsonValue) (d : DiscordRPC) :
  fromJson w data = Some (JObject obj) ->
  obj !! "cmd" = Some (JString "DISPATCH") ->
  obj !! "evt" = Some (JString "READY") ->
  (state_ d = SentHandshake ->
   HandleMessage w data d = set_state Connected d
   /\ state_ (HandleMessage w data d) = Connected)
  /\ (state_ d <> SentHandshake -> HandleMessage w data d = d)
  /\ (header_size + QByteArray.size data < 2 ^ 31 ->
      read_buffer_ d = [] ->
      OnReadyRead w 1 (encode_frame (Opcode_value Frame) data) d
      = Some ([(1, data)], HandleMessage w data d)).
Proof.
  intros Hparse Hcmd Hevt.
  pose proof (HandleMessage_ready w data obj d Hparse Hcmd Hevt) as Hready.
  split; [|split].
  - intros Hst. rewrite Hready, Hst. done.
  - intros Hst. rewrite Hready. by destruct (state_ d).
  - intros Hlen Hempty. unfold OnReadyRead.
    rewrite (ProcessIncomingData_frame w 0 _ 1 data []);
      [|lia|done|by cbn; rewrite Hempty, app_nil_r].
    change (dispatch w 1 ?l ?x ?y) with (HandleMessage w x y).
    rewrite ProcessIncomingData_short by (by rewrite HandleMessage_read_buffer).
    do 3 f_equal.
    destruct d as [application_id sock timer st nonce delay buffer].
    cbn in Hempty. by subst buffer.
Qed.

Lemma ready_message_enters_Connected_witness :
  (state_ sample_handshaking = SentHandshake ->
   HandleMessage (sample_world true false) ready_text sample_handshaking
   = set_state Connected sample_handshaking
   /\ state_ (HandleMessage (sample_world true false) ready_text sample_handshaking)
      = Connected)
  /\ (state_ sample_handshaking <> SentHandshake ->
      HandleMessage (sample_world true false) ready_text sample_handshaking
      = sample_handshaking)
  /\ (header_size + QByteArray.size ready_text < 2 ^ 31 ->
      read_buffer_ sample_handshaking = [] ->
      OnReadyRead (sample_world true false) 1 (encode_frame (Opcode_value Frame) ready_text)
                  sample_handshaking
      = Some ([(1, ready_text)],
              HandleMessage (sample_world true false) ready_text sample_handshaking)).
Proof.
  apply (ready_message_enters_Connected (sample_world true false) ready_text ready_object
           sample_handshaking).
  - reflexivity.
  - by vm_compute.
  - by vm_compute.
Defined.

(** ** Presence updates outside [Connected] *)

(** C8.  Outside [Connected], [UpdatePresence] and [ClearPresence] return
    the object as it was: nothing is written to the socket, and the state,
    the nonce counter, the receive buffer and the delay are untouched. *)
Theorem UpdatePresence_dropped_unless_Connected
    (w : World) (presence : DiscordPresence) (d : DiscordRPC) :
  state_ d <> Connected ->
  UpdatePresence w presence d = d
  /\ ClearPresence w d = d
  /\ step w 0 (CallUpdatePresence presence) d = Some d.
Proof.
  intros Hst. unfold ClearPresence, step, UpdatePresence.
  by destruct (state_ d).
Qed.

Lemma UpdatePresence_dropped_unless_Connected_witness :
  UpdatePresence (sample_world true false) sample_presence sample_handshaking
  = sample_handshaking
  /\ ClearPresence (sample_world true false) sample_handshaking = sample_handshaking
  /\ step (sample_world true false) 0 (CallUpdatePresence sample_presence) sample_handshaking
     = Some sample_handshaking.
Proof.
  apply (UpdatePresence_dropped_unless_Connected
           (sample_world true false) sample_presence sample_handshaking).
  by vm_compute.
Defined.

(** In [Connected] the call does send: one [Frame]-opcode frame, and the
    nonce counter moves on. *)
Lemma UpdatePresence_Connected (w : World) (presence : DiscordPresence) (d : DiscordRPC) :
  state_ d = Connected ->
  let data := toJson w (JObject (presence_command w (nonce_ d) presence)) in
  UpdatePresence w presence d
  = socket_write (frame_bytes 1 (wrap_quint32 (QByteArray.size data)) data)
                 (set_nonce (wrap_int (nonce_ d + 1)) d).
Proof.
  intros Hst. unfold UpdatePresence, CreatePresenceMessage, SendFrame.
  rewrite Hst. cbn. by rewrite Hst.
Qed.

(** ** Ping and Close *)

(** The turn that meets a complete [Ping] frame. *)
Lemma Ping_turn (w : World) (fuel : nat) (d : DiscordRPC) (payload rest : QByteArray) :
  header_size + QByteArray.size payload < 2 ^ 31 ->
  read_buffer_ d = encode_frame (Opcode_value Ping) payload ++ rest ->
  ProcessIncomingData w (S fuel) d
  = match ProcessIncomingData w fuel
            (socket_write (encode_frame (Opcode_value Pong) payload) (set_read_buffer rest d)) with
    | Some (events, d') => Some ((3, payload) :: events, d')
    | None => None
    end.
Proof.
  intros Hlen Hbuf. by rewrite (ProcessIncomingData_frame w fuel d 3 payload rest).
Qed.

(** The turn that meets a complete [Close] frame. *)
Lemma Close_turn (w : World) (fuel : nat) (d : DiscordRPC) (payload rest : QByteArray) :
  header_size + QByteArray.size payload < 2 ^ 31 ->
  read_buffer_ d = encode_frame (Opcode_value Close) payload ++ rest ->
  ProcessIncomingData w (S fuel) d
  = match ProcessIncomingData w fuel
            (socket_disconnectFromServer w (set_read_buffer rest d)) with
    | Some (events, d') => Some ((2, payload) :: events, d')
    | None => None
    end.
Proof.
  intros Hlen Hbuf. by rewrite (ProcessIncomingData_frame w fuel d 2 payload rest).
Qed.

Lemma Close_turn_at_once (w : World) (fuel : nat) (d : DiscordRPC) (payload rest : QByteArray) :
  header_size + QByteArray.size payload < 2 ^ 31 ->
  read_buffer_ d = encode_frame (Opcode_value Close) payload ++ rest ->
  closes_at_once w = true -> sock_state (socket_ d) <> UnconnectedState ->
  ProcessIncomingData w (S fuel) d
  = Some ([(2, payload)],
          OnDisconnected (socket_set_state UnconnectedState (set_read_buffer rest d))).
Proof.
  intros Hlen Hbuf Hnow Hopen. rewrite (Close_turn w fuel d payload rest) by done.
  unfold socket_disconnectFromServer. cbn [set_read_buffer socket_ sock_state].
  rewrite Hnow.
  destruct (sock_state (socket_ d)) eqn:Hsock; [done|..];
    by rewrite ProcessIncomingData_short.
Qed.

(** C9.  Whenever a turn of the loop extracts a frame whose opcode is
    [Ping], in any connection state, it writes exactly one frame to the
    socket: opcode [Pong], the length field as read from the [Ping] header,
    the payload as extracted.  The connection state and every field but the
    buffer and the socket's writes stay as they were, and the loop goes on
    behind the frame.  For a complete encoded [Ping] frame with payload P
    the length field is the size of P and the payload written is P, so the
    [Pong] is the encoded frame (Pong, P). *)
Theorem Ping_is_answered_by_one_Pong (w : World) (fuel : nat) (d : DiscordRPC) :
  8 <= QByteArray.size (read_buffer_ d) ->
  read_quint32 (read_buffer_ d) = Opcode_value Ping ->
  (QByteArray.size (read_buffer_ d)
   <? wrap_int (header_size + wrap_int (declared_length (read_buffer_ d)))) = false ->
  let length := declared_length (read_buffer_ d) in
  let payload := QByteArray.mid (read_buffer_ d) header_size length in
  let rest := QByteArray.remove_front (read_buffer_ d) (wrap_quint32 (header_size + length)) in
  let d1 := socket_write (frame_bytes (Opcode_value Pong) length payload)
                         (set_read_buffer rest d) in
  ProcessIncomingData w (S fuel) d
  = match ProcessIncomingData w fuel d1 with
    | Some (events, d') => Some ((3, payload) :: events, d')
    | None => None
    end
  /\ state_ d1 = state_ d
  /\ sock_writes (socket_ d1)
     = sock_writes (socket_ d) ++ [frame_bytes (Opcode_value Pong) length payload]
  /\ (forall P behind,
        header_size + QByteArray.size P < 2 ^ 31 ->
        read_buffer_ d = encode_frame (Opcode_value Ping) P ++ behind ->
        length = QByteArray.size P /\ payload = P /\ rest = behind
        /\ frame_bytes (Opcode_value Pong) length payload = encode_frame (Opcode_value Pong) P).
Proof.
  intros Hsz Hop Hfull length payload rest d1.
  split; [|split; [done|split; [done|]]].
  - by rewrite (ProcessIncomingData_extract w fuel d 3 length payload rest).
  - intros P behind HP Hbuf.
    assert (Hh : header_size = 8) by reflexivity.
    assert (H0 : 0 <= QByteArray.size P) by (unfold QByteArray.size; lia).
    assert (Hlength : length = QByteArray.size P).
    { unfold length. rewrite Hbuf. apply encode_frame_length. lia. }
    assert (Hpayload : payload = P).
    { unfold payload. rewrite Hlength, Hbuf. apply mid_encode_frame. }
    assert (Hrest : rest = behind).
    { unfold rest. rewrite Hlength, Hbuf.
      rewrite wrap_quint32_small by lia.
      apply remove_front_encode_frame. }
    by rewrite Hlength, Hpayload.
Qed.

Lemma Ping_is_answered_by_one_Pong_witness :
  let d := set_read_buffer (encode_frame 3 [x01; x02]) (sample_open Disconnected) in
  let d1 := socket_write (encode_frame 4 [x01; x02]) (set_read_buffer [] d) in
  ProcessIncomingData (sample_world true false) 1 d = Some ([(3, [x01; x02])], d1)
  /\ state_ d1 = state_ d
  /\ sock_writes (socket_ d1) = sock_writes (socket_ d) ++ [encode_frame 4 [x01; x02]].
Proof.
  cbv zeta.
  destruct (Ping_is_answered_by_one_Pong (sample_world true false) 0
              (set_read_buffer (encode_frame 3 [x01; x02]) (sample_open Disconnected)))
    as (Hrun & Hstate & Hwrites & _).
  - by vm_compute.
  - reflexivity.
  - reflexivity.
  - split; [exact Hrun|]. split; [exact Hstate|exact Hwrites].
Defined.

Lemma socket_disconnectFromServer_deferred (w : World) (d : DiscordRPC) :
  closes_at_once w = false \/ sock_state (socket_ d) = UnconnectedState ->
  socket_disconnectFromServer w d
  = match sock_state (socket_ d) with
    | UnconnectedState => d
    | _ => socket_set_state ClosingState d
    end.
Proof.
  intros [Hlater|Hsock]; unfold socket_disconnectFromServer.
  - by rewrite Hlater.
  - by rewrite Hsock.
Qed.

(** C10 (as amended).  A complete [Close] frame at the front of the buffer.
    - When the transport closes later, or the socket is not open, the call
      to [disconnectFromServer()] only moves an open socket to
      [ClosingState]; the loop goes on with the bytes behind the frame, and
      a [Ping] frame there is decoded in the same pass and answered with
      its [Pong].
    - When the transport closes an open socket at once, [OnDisconnected]
      runs inside the call: it empties the receive buffer, so the pass ends
      with the [Close] and the frames behind it are dropped. *)
Theorem Close_and_the_frames_behind_it
    (w : World) (fuel : nat) (d : DiscordRPC) (payload ping rest : QByteArray) :
  header_size + QByteArray.size payload < 2 ^ 31 ->
  header_size + QByteArray.size ping < 2 ^ 31 ->
  read_buffer_ d = encode_frame (Opcode_value Close) payload ++ rest ->
  (closes_at_once w = false \/ sock_state (socket_ d) = UnconnectedState ->
   let d1 := match sock_state (socket_ d) with
             | UnconnectedState => set_read_buffer rest d
             | _ => socket_set_state ClosingState (set_read_buffer rest d)
             end in
   ProcessIncomingData w (S fuel) d
   = match ProcessIncomingData w fuel d1 with
     | Some (events, d') => Some ((2, payload) :: events, d')
     | None => None
     end
   /\ (rest = encode_frame (Opcode_value Ping) ping ->
       ProcessIncomingData w (S (S fuel)) d
       = Some ([(2, payload); (3, ping)],
               socket_write (encode_frame (Opcode_value Pong) ping) (set_read_buffer [] d1))))
  /\ (closes_at_once w = true -> sock_state (socket_ d) <> UnconnectedState ->
      ProcessIncomingData w (S fuel) d
      = Some ([(2, payload)],
              OnDisconnected (socket_set_state UnconnectedState (set_read_buffer rest d)))).
Proof.
  intros Hlen Hping Hbuf. split.
  - intros Hlater d1.
    assert (Hd1 : socket_disconnectFromServer w (set_read_buffer rest d) = d1).
    { rewrite socket_disconnectFromServer_deferred by done.
      unfold d1. cbn. by destruct (sock_state (socket_ d)). }
    split.
    + by rewrite (Close_turn w fuel d payload rest), Hd1.
    + intros Hrest.
      rewrite (Close_turn w (S fuel) d payload rest), Hd1 by done.
      rewrite (Ping_turn w fuel d1 ping []); [by rewrite ProcessIncomingData_short|done|].
      unfold d1. rewrite Hrest, app_nil_r. by destruct (sock_state (socket_ d)).
  - intros Hnow Hopen. by apply Close_turn_at_once.
Qed.

Lemma Close_and_the_frames_behind_it_witness :
  let w := sample_world true false in
  let d := set_read_buffer (encode_frame 2 [] ++ encode_frame 3 [x01]) (sample_open Connected) in
  ProcessIncomingData w 2 d
  = Some ([(2, []); (3, [x01])],
          socket_write (encode_frame 4 [x01])
            (set_read_buffer [] (socket_set_state ClosingState
                                   (set_read_buffer (encode_frame 3 [x01]) d)))).
Proof.
  cbv zeta.
  apply (Close_and_the_frames_behind_it (sample_world true false) 0
           (set_read_buffer (encode_frame 2 [] ++ encode_frame 3 [x01]) (sample_open Connected))
           [] [x01] (encode_frame 3 [x01])).
  - by vm_compute.
  - by vm_compute.
  - reflexivity.
  - left. reflexivity.
  - reflexivity.
Defined.

(** C10, as stated, fails: a [Close] frame and a complete [Ping] frame read
    in one chunk on an open socket that closes at once.  The pass hands only
    the [Close] to the [switch]; the [Ping] is neither extracted nor
    answered (nothing is written), and the buffer ends empty. *)
Lemma Close_at_once_drops_the_Ping_behind_it :
  let w := sample_world true true in
  let d := set_read_buffer (encode_frame 2 [] ++ encode_frame 3 [x01]) (sample_open Connected) in
  ProcessIncomingData w 2 d
  = Some ([(2, [])], OnDisconnected (socket_set_state UnconnectedState (sample_open Connected)))
  /\ (forall fuel,
        exists d',
          ProcessIncomingData w (S fuel) d = Some ([(2, [])], d')
          /\ sock_writes (socket_ d') = []
          /\ read_buffer_ d' = []
          /\ state_ d' = Disconnected).
Proof.
  cbv zeta. split; [by vm_compute|].
  intros fuel. eexists. split.
  - apply (Close_turn_at_once (sample_world true true) fuel
             (set_read_buffer (encode_frame 2 [] ++ encode_frame 3 [x01]) (sample_open Connected))
             [] (encode_frame 3 [x01])); try reflexivity; by vm_compute.
  - by vm_compute.
Qed.

(** * Further properties *)

(** ** Frames across reads *)

Lemma encode_frames_cons (opcode : Z) (payload : QByteArray) (frames : list (Z * QByteArray)) :
  encode_frames ((opcode, payload) :: frames)
  = encode_frame opcode payload ++ encode_frames frames.
Proof. reflexivity. Qed.

Lemma awaits_more_waits (w : World) (fuel : nat) (d : DiscordRPC) :
  awaits_more (read_buffer_ d) -> ProcessIncomingData w (S fuel) d = Some ([], d).
Proof. apply partial_frame_waits. Qed.

(** A buffer of at least 8 bytes that begins an encoded frame carries the
    frame's header. *)
Lemma prefix_declared_length (x y z payload : QByteArray) (opcode : Z) :
  x ++ y = encode_frame opcode payload ++ z ->
  8 <= QByteArray.size x ->
  QByteArray.size payload < 2 ^ 32 ->
  declared_length x = QByteArray.size payload.
Proof.
  intros Heq Hsz Hlen.
  destruct x as [|b0 [|b1 [|b2 [|b3 [|b4 [|b5 [|b6 [|b7 x]]]]]]]];
    try (unfold QByteArray.size in Hsz; cbn in Hsz; lia).
  unfold encode_frame, frame_bytes, quint32_bytes in Heq. cbn [app] in Heq.
  injection Heq as -> -> -> -> -> -> -> -> _.
  unfold declared_length. cbn [drop].
  apply (read_quint32_bytes (QByteArray.size payload) x).
  unfold QByteArray.size in *. lia.
Qed.

(** The loop takes the complete frames off the front and stops at what is
    left when that is a partial frame. *)
Lemma frames_then_partial (w : World) (frames : list (Z * QByteArray)) (partial : QByteArray) :
  Forall valid_frame frames ->
  closes_at_once w = false \/ Forall (fun f => f.1 <> Opcode_value Close) frames ->
  awaits_more partial ->
  forall d, read_buffer_ d = encode_frames frames ++ partial ->
  exists d', ProcessIncomingData w (S (length frames)) d = Some (frames, d')
             /\ read_buffer_ d' = partial.
Proof.
  intros Hvalid. induction Hvalid as [|[opcode payload] frames [Hop Hlen] Hvalid IH];
    intros Hclose Hpartial d Hbuf.
  - exists d. split; [|done]. apply awaits_more_waits. by rewrite Hbuf.
  - cbn [length]. cbn in Hop, Hlen.
    rewrite (ProcessIncomingData_frame w _ d opcode payload (encode_frames frames ++ partial));
      [|done|done|by rewrite Hbuf, encode_frames_cons, <- app_assoc].
    set (d1 := dispatch _ _ _ _ _).
    assert (Hd1 : read_buffer_ d1 = encode_frames frames ++ partial).
    { unfold d1. rewrite dispatch_read_buffer; [done|].
      destruct Hclose as [Hnow|Hnc]; [by left|right; left]. by inversion Hnc. }
    destruct (IH) with (d := d1) as (d' & Hrun & Hrest); [|done|done|].
    { destruct Hclose as [Hnow|Hnc]; [by left|right]. by inversion Hnc. }
    exists d'. by rewrite Hrun.
Qed.

(** Any cut through a sequence of encoded frames falls after some complete
    frames and inside (or just before) the next one. *)
Lemma encode_frames_cut (frames : list (Z * QByteArray)) :
  Forall valid_frame frames ->
  forall x y : QByteArray,
    x ++ y = encode_frames frames ->
    exists frames1 frames2 partial,
      frames = frames1 ++ frames2
      /\ x = encode_frames frames1 ++ partial
      /\ awaits_more partial
      /\ partial ++ y = encode_frames frames2.
Proof.
  intros Hvalid. induction Hvalid as [|[opcode payload] frames [Hop Hlen] Hvalid IH];
    intros x y Hcut.
  - apply app_eq_nil in Hcut as [-> ->].
    exists [], [], []. repeat split; try done. left. by vm_compute.
  - cbn in Hop, Hlen. change (encode_frames ((opcode, payload) :: frames))
      with (encode_frame opcode payload ++ encode_frames frames) in Hcut.
    assert (Hh : header_size = 8) by reflexivity.
    assert (H0 : 0 <= QByteArray.size payload) by (unfold QByteArray.size; lia).
    pose proof (encode_frame_size opcode payload) as Hsize.
    destruct (Z.lt_ge_cases (QByteArray.size x) (QByteArray.size (encode_frame opcode payload)))
      as [Hin|Hpast].
    + exists [], ((opcode, payload) :: frames), x. repeat split; try done.
      destruct (Z.lt_ge_cases (QByteArray.size x) 8) as [Hshort|Hhead]; [by left|right].
      rewrite (prefix_declared_length x y (encode_frames frames) payload opcode) by (done || lia).
      lia.
    + assert (Hx : x = encode_frame opcode payload
                       ++ drop (length (encode_frame opcode payload)) x).
      { rewrite <- (take_drop (length (encode_frame opcode payload)) x) at 1. f_equal.
        apply (f_equal (take (length (encode_frame opcode payload)))) in Hcut.
        rewrite take_app_length in Hcut.
        rewrite take_app_le in Hcut; [done|]. unfold QByteArray.size in Hpast. lia. }
      set (x' := drop (length (encode_frame opcode payload)) x) in Hx.
      rewrite Hx, <- app_assoc in Hcut. apply app_inv_head in Hcut.
      destruct (IH x' y Hcut) as (frames1 & frames2 & partial & -> & Hx' & Hwait & Hrest).
      exists ((opcode, payload) :: frames1), frames2, partial. repeat split; try done.
      rewrite Hx, Hx'. change (encode_frames ((opcode, payload) :: frames1))
        with (encode_frame opcode payload ++ encode_frames frames1).
      by rewrite <- app_assoc.
Qed.

Lemma awaits_more_no_frame (frames : list (Z * QByteArray)) :
  Forall valid_frame frames -> awaits_more (encode_frames frames) -> frames = [].
Proof.
  intros Hvalid Hwait. destruct Hvalid as [|[opcode payload] frames [Hop Hlen] Hvalid]; [done|].
  exfalso. cbn in Hop, Hlen. rewrite encode_frames_cons in Hwait.
  assert (Hh : header_size = 8) by reflexivity.
  assert (H0 : 0 <= QByteArray.size payload) by (unfold QByteArray.size; lia).
  assert (Hsz : header_size + QByteArray.size payload
                <= QByteArray.size (encode_frame opcode payload ++ encode_frames frames)).
  { rewrite <- (encode_frame_size opcode payload).
    unfold QByteArray.size. rewrite length_app. lia. }
  destruct Hwait as [Hshort|[_ Hpart]]; [lia|].
  rewrite encode_frame_length in Hpart by lia. lia.
Qed.

Lemma chunks_decoded (w : World) (fuel : nat) (chunks : list QByteArray) :
  forall (frames : list (Z * QByteArray)) (partial : QByteArray) (d : DiscordRPC),
    Forall valid_frame frames ->
    closes_at_once w = false \/ Forall (fun f => f.1 <> Opcode_value Close) frames ->
    (length frames < fuel)%nat ->
    read_buffer_ d = partial ->
    partial ++ concat chunks = encode_frames frames ->
    awaits_more partial ->
    exists d', OnReadyRead_all w fuel chunks d = Some (frames, d')
               /\ read_buffer_ d' = [].
Proof.
  induction chunks as [|readAll chunks IH];
    intros frames partial d Hvalid Hclose Hfuel Hbuf Hcut Hwait.
  - cbn in Hcut. rewrite app_nil_r in Hcut. subst partial.
    rewrite Hcut in Hwait. apply awaits_more_no_frame in Hwait; [|done]. subst frames.
    exists d. split; [done|]. by rewrite Hcut.
  - cbn [concat] in Hcut. rewrite app_assoc in Hcut.
    destruct (encode_frames_cut frames Hvalid _ _ Hcut)
      as (frames1 & frames2 & partial' & -> & Hread & Hwait' & Hrest).
    apply Forall_app in Hvalid as [Hvalid1 Hvalid2].
    rewrite length_app in Hfuel.
    assert (Hclose1 : closes_at_once w = false
                      \/ Forall (fun f => f.1 <> Opcode_value Close) frames1).
    { destruct Hclose as [?|Hnc]; [by left|right]. by apply Forall_app in Hnc as [? _]. }
    assert (Hclose2 : closes_at_once w = false
                      \/ Forall (fun f => f.1 <> Opcode_value Close) frames2).
    { destruct Hclose as [?|Hnc]; [by left|right]. by apply Forall_app in Hnc as [_ ?]. }
    destruct (frames_then_partial w frames1 partial' Hvalid1 Hclose1 Hwait'
                (set_read_buffer (read_buffer_ d ++ readAll) d))
      as (d1 & Hrun1 & Hbuf1); [by cbn; rewrite Hbuf|].
    apply (ProcessIncomingData_more_fuel w _ _ _ fuel) in Hrun1; [|lia].
    destruct (IH frames2 partial' d1 Hvalid2 Hclose2 ltac:(lia) Hbuf1 Hrest Hwait')
      as (d' & Hrun2 & Hempty).
    exists d'. split; [|done].
    cbn [OnReadyRead_all]. unfold OnReadyRead. by rewrite Hrun1, Hrun2.
Qed.

(** X1.  However a stream of complete frames is cut into reads, the reads
    together hand exactly those frames to the [switch], in order and with
    their payloads, and leave the buffer empty.  (Frames with payloads below
    2^31 - 8 bytes; in a world where the socket closes at once, no [Close]
    frame among them.) *)
Theorem frames_survive_any_chunking
    (w : World) (chunks : list QByteArray) (frames : list (Z * QByteArray)) (d : DiscordRPC) :
  Forall valid_frame frames ->
  closes_at_once w = false \/ Forall (fun f => f.1 <> Opcode_value Close) frames ->
  read_buffer_ d = [] ->
  concat chunks = encode_frames frames ->
  exists d', OnReadyRead_all w (S (length frames)) chunks d = Some (frames, d')
             /\ read_buffer_ d' = [].
Proof.
  intros Hvalid Hclose Hempty Hcut.
  apply (chunks_decoded w _ chunks frames [] d); try done; [lia|].
  left. by vm_compute.
Qed.

Lemma frames_survive_any_chunking_witness :
  exists d',
    OnReadyRead_all (sample_world true true) 3
      [ [x03; x00; x00]; [x00; x02; x00; x00; x00; x0a]; []; [x0b; x01; x00; x00; x00; x00];
        [x00; x00; x00] ]
      (sample_open Connected)
    = Some ([(3, [x0a; x0b]); (1, [])], d')
    /\ read_buffer_ d' = [].
Proof.
  apply (frames_survive_any_chunking (sample_world true true)
           [ [x03; x00; x00]; [x00; x02; x00; x00; x00; x0a]; []; [x0b; x01; x00; x00; x00; x00];
             [x00; x00; x00] ]
           [(3, [x0a; x0b]); (1, [])] (sample_open Connected)).
  - repeat constructor; cbn; lia.
  - right. repeat constructor; by vm_compute.
  - reflexivity.
  - reflexivity.
Defined.

(** X2.  A read that leaves the buffer with less than a header, or with a
    header and less payload than it declares (header and payload below 2^31
    bytes together), is only appended: nothing reaches the [switch], nothing
    is written, no field but the buffer changes. *)
Theorem partial_read_is_only_buffered
    (w : World) (fuel : nat) (readAll : QByteArray) (d : DiscordRPC) :
  awaits_more (read_buffer_ d ++ readAll) ->
  OnReadyRead w (S fuel) readAll d
  = Some ([], set_read_buffer (read_buffer_ d ++ readAll) d).
Proof.
  intros Hwait. unfold OnReadyRead. by apply partial_frame_waits.
Qed.

Lemma partial_read_is_only_buffered_witness :
  OnReadyRead (sample_world true true) 1 [x00; x00; xaa; xbb]
              (set_read_buffer [x01; x00; x00; x00; x05; x00] (sample_open SentHandshake))
  = Some ([], set_read_buffer ([x01; x00; x00; x00; x05; x00] ++ [x00; x00; xaa; xbb])
                (set_read_buffer [x01; x00; x00; x00; x05; x00] (sample_open SentHandshake))).
Proof.
  apply (partial_read_is_only_buffered (sample_world true true) 0 [x00; x00; xaa; xbb]
           (set_read_buffer [x01; x00; x00; x00; x05; x00] (sample_open SentHandshake))).
  right. split; by vm_compute.
Defined.

(** X3.  Whatever a read delivers, when [OnReadyRead] returns the buffer
    holds less than a header, or a header and less payload than that header
    declares: no complete frame is left behind. *)
Theorem read_leaves_no_complete_frame
    (w : World) (fuel : nat) (readAll : QByteArray) (d d' : DiscordRPC)
    (events : list (Z * QByteArray)) :
  OnReadyRead w fuel readAll d = Some (events, d') ->
  QByteArray.size (read_buffer_ d') < 8
  \/ QByteArray.size (read_buffer_ d') < header_size + declared_length (read_buffer_ d').
Proof.
  unfold OnReadyRead. apply pass_leaves_partial_frame.
Qed.

Lemma read_leaves_no_complete_frame_witness :
  let d' := set_read_buffer [x03; x00; x00; x00; x09; x00; x00; x00; x07]
              (socket_write (encode_frame 4 [x01]) (sample_open Connected)) in
  QByteArray.size (read_buffer_ d') < 8
  \/ QByteArray.size (read_buffer_ d') < header_size + declared_length (read_buffer_ d').
Proof.
  cbv zeta.
  apply (read_leaves_no_complete_frame (sample_world true false) 2
           (encode_frame 3 [x01] ++ [x03; x00; x00; x00; x09; x00; x00; x00; x07])
           (sample_open Connected) _ [(3, [x01])]).
  by vm_compute.
Defined.

(** X4.  The loop ends: with one unit of fuel more than the buffer has
    bytes, a pass returns, unless somewhere in the buffer a header declares
    a payload of 2^32 - 8 bytes. *)
Theorem pass_ends (w : World) (d : DiscordRPC) :
  (forall k : nat,
     8 <= QByteArray.size (drop k (read_buffer_ d)) ->
     declared_length (drop k (read_buffer_ d)) <> 2 ^ 32 - 8) ->
  exists result, ProcessIncomingData w (S (length (read_buffer_ d))) d = Some result.
Proof.
  intros Hno.
  destruct (ProcessIncomingData w (S (length (read_buffer_ d))) d) as [result|] eqn:Hrun;
    [by exists result|].
  apply pass_ends_unless_length_wraps in Hrun as (k & Hk8 & Hk); [|lia].
  by destruct (Hno k Hk8).
Qed.

Lemma pass_ends_witness :
  exists result,
    ProcessIncomingData (sample_world true false) 10
      (set_read_buffer [x09; x00; x00; x00; x01; x00; x00; x00; xff] (sample_open Connected))
    = Some result.
Proof.
  apply (pass_ends (sample_world true false)
           (set_read_buffer [x09; x00; x00; x00; x01; x00; x00; x00; xff] (sample_open Connected))).
  intros k Hk8.
  destruct k as [|[|k]]; [by vm_compute|by vm_compute|].
  exfalso. revert Hk8. unfold QByteArray.size.
  cbn [read_buffer_ set_read_buffer]. rewrite length_drop. cbn [length]. lia.
Defined.

(** X5.  A header with an opcode other than [Close] that declares a payload
    of 2^32 - 8 bytes, read into an empty buffer with anything behind it:
    [OnReadyRead] does not return, with whatever fuel.  (Converted to [int]
    the length is -8, so the loop does not wait; 8 + length is 0 in 32
    bits, so it removes nothing.) *)
Theorem length_minus_8_header_hangs_the_read
    (w : World) (fuel : nat) (opcode : Z) (behind : QByteArray) (d : DiscordRPC) :
  0 <= opcode < 2 ^ 32 ->
  opcode <> Opcode_value Close ->
  read_buffer_ d = [] ->
  OnReadyRead w fuel (frame_bytes opcode (2 ^ 32 - 8) behind) d = None.
Proof.
  intros Hop Hclose Hempty. unfold OnReadyRead.
  apply (declared_length_minus_8_never_ends w opcode behind Hop Hclose).
  cbn. by rewrite Hempty.
Qed.

Lemma length_minus_8_header_hangs_the_read_witness :
  OnReadyRead (sample_world true false) 1000
              (frame_bytes 3 (2 ^ 32 - 8) []) (sample_open Connected) = None.
Proof.
  apply (length_minus_8_header_hangs_the_read (sample_world true false) 1000 3 []
           (sample_open Connected)).
  - lia.
  - by vm_compute.
  - reflexivity.
Defined.

(** ** Opcodes and messages that change nothing *)

Lemma dispatch_ignored (w : World) (opcode length : Z) (data : QByteArray) (d : DiscordRPC) :
  opcode <> Opcode_value Frame -> opcode <> Opcode_value Close -> opcode <> Opcode_value Ping ->
  dispatch w opcode length data d = d.
Proof.
  intros Hf Hc Hp. unfold dispatch, Opcode_of.
  repeat (match goal with |- context [?a =? ?b] => destruct (Z.eqb_spec a b) end);
    try done; subst; by cbn in *.
Qed.

(** X6.  A complete frame whose opcode is [Handshake], [Pong] or no opcode
    of the protocol is taken off the buffer and otherwise ignored: nothing is
    written, no field but the buffer changes, and the loop goes on with the
    bytes behind it. *)
Theorem other_opcodes_are_consumed_and_ignored
    (w : World) (fuel : nat) (d : DiscordRPC) (opcode : Z) (payload rest : QByteArray) :
  0 <= opcode < 2 ^ 32 ->
  opcode <> Opcode_value Frame -> opcode <> Opcode_value Close -> opcode <> Opcode_value Ping ->
  header_size + QByteArray.size payload < 2 ^ 31 ->
  read_buffer_ d = encode_frame opcode payload ++ rest ->
  ProcessIncomingData w (S fuel) d
  = match ProcessIncomingData w fuel (set_read_buffer rest d) with
    | Some (events, d') => Some ((opcode, payload) :: events, d')
    | None => None
    end
  /\ (rest = [] ->
      ProcessIncomingData w (S fuel) d = Some ([(opcode, payload)], set_read_buffer [] d)).
Proof.
  intros Hop Hf Hc Hp Hlen Hbuf.
  rewrite (ProcessIncomingData_frame w fuel d opcode payload rest) by done.
  rewrite dispatch_ignored by done.
  split; [done|]. intros ->. by rewrite ProcessIncomingData_short.
Qed.

Lemma other_opcodes_are_consumed_and_ignored_witness :
  let d := set_read_buffer (encode_frame 4 [x01] ++ []) (sample_open SentHandshake) in
  ProcessIncomingData (sample_world true true) 1 d
  = match ProcessIncomingData (sample_world true true) 0 (set_read_buffer [] d) with
    | Some (events, d') => Some ((4, [x01]) :: events, d')
    | None => None
    end
  /\ (([] : QByteArray) = [] ->
      ProcessIncomingData (sample_world true true) 1 d
      = Some ([(4, [x01])], set_read_buffer [] d)).
Proof.
  cbv zeta.
  apply (other_opcodes_are_consumed_and_ignored (sample_world true true) 0
           (set_read_buffer (encode_frame 4 [x01] ++ []) (sample_open SentHandshake))
           4 [x01] []); try (by vm_compute); lia.
Defined.

(** X7.  [HandleMessage] changes the object only in one way and in one
    case: it sets the state to [Connected], and it does so only in
    [SentHandshake] for a payload that parses as an object whose [cmd] is
    the string "DISPATCH" and whose [evt] is the string "READY".  A parse
    error, a document that is no object, a missing member or a member of
    another kind or value leaves the object as it is. *)
Theorem HandleMessage_changes_only_on_ready
    (w : World) (data : QByteArray) (d : DiscordRPC) :
  HandleMessage w data d <> d ->
  HandleMessage w data d = set_state Connected d
  /\ state_ d = SentHandshake
  /\ exists obj,
       fromJson w data = Some (JObject obj)
       /\ obj !! "cmd" = Some (JString "DISPATCH")
       /\ obj !! "evt" = Some (JString "READY").
Proof.
  unfold HandleMessage, value_toString. intros Hchg.
  destruct (fromJson w data) as [[| | | | |obj]|]; try done.
  destruct (state_ d) eqn:Hst; cbn [State_eqb] in *; try done.
  destruct (obj !! "cmd") as [[| | |cmd| |]|] eqn:Hcmd; cbn in Hchg |- *; try done.
  destruct (String.eqb_spec cmd "DISPATCH") as [->|]; cbn in Hchg |- *; [|done].
  destruct (obj !! "evt") as [[| | |evt| |]|] eqn:Hevt; cbn in Hchg |- *; try done.
  destruct (String.eqb_spec evt "READY") as [->|]; cbn in Hchg |- *; [|done].
  repeat split; try done. by exists obj.
Qed.

Lemma HandleMessage_changes_only_on_ready_witness :
  HandleMessage (sample_world true false) ready_text sample_handshaking
  = set_state Connected sample_handshaking
  /\ state_ sample_handshaking = SentHandshake
  /\ exists obj,
       fromJson (sample_world true false) ready_text = Some (JObject obj)
       /\ obj !! "cmd" = Some (JString "DISPATCH")
       /\ obj !! "evt" = Some (JString "READY").
Proof.
  apply (HandleMessage_changes_only_on_ready (sample_world true false) ready_text
           sample_handshaking).
  by vm_compute.
Defined.

(** ** What is sent, and how it reads back *)

Lemma decode_one_frame (w : World) (opcode : Z) (payload : QByteArray) (d : DiscordRPC) :
  0 <= opcode < 2 ^ 32 ->
  header_size + QByteArray.size payload < 2 ^ 31 ->
  read_buffer_ d = [] ->
  exists d', OnReadyRead w 1 (encode_frame opcode payload) d = Some ([(opcode, payload)], d').
Proof.
  intros Hop Hlen Hempty.
  destruct (frames_decoded w [(opcode, payload)]) with
    (d := set_read_buffer (read_buffer_ d ++ encode_frame opcode payload) d)
    as (d' & Hrun & _).
  - constructor; [by split|constructor].
  - right. unfold no_Close_before_last. cbn. constructor.
  - cbn [read_buffer_ set_read_buffer]. rewrite Hempty, encode_frames_cons.
    change (encode_frames []) with ([] : QByteArray). by rewrite app_nil_r.
  - by exists d'.
Qed.

(** X8.  In [Connected], [UpdatePresence] writes exactly one frame and
    advances the nonce counter by one; no other field changes.  The frame
    is the encoded [Frame]-opcode frame around the JSON text of the command
    (below 2^31 - 8 bytes), and this decoder reads it back as that one
    (opcode, payload) pair. *)
Theorem UpdatePresence_frame_round_trip
    (w w' : World) (presence : DiscordPresence) (d peer : DiscordRPC) :
  state_ d = Connected ->
  let data := toJson w (JObject (presence_command w (nonce_ d) presence)) in
  header_size + QByteArray.size data < 2 ^ 31 ->
  read_buffer_ peer = [] ->
  UpdatePresence w presence d
  = socket_write (encode_frame (Opcode_value Frame) data) (set_nonce (wrap_int (nonce_ d + 1)) d)
  /\ exists peer',
       OnReadyRead w' 1 (encode_frame (Opcode_value Frame) data) peer
       = Some ([(1, data)], peer').
Proof.
  intros Hst data Hlen Hempty. split.
  - rewrite UpdatePresence_Connected by done. fold data.
    rewrite wrap_quint32_small; [done|]. unfold QByteArray.size, header_size in *. lia.
  - by apply decode_one_frame.
Qed.

Lemma UpdatePresence_frame_round_trip_witness :
  UpdatePresence (sample_world true false) sample_presence (sample_open Connected)
  = socket_write (encode_frame 1 []) (set_nonce 2 (sample_open Connected))
  /\ exists peer',
       OnReadyRead (sample_world true true) 1 (encode_frame 1 []) (Construct "peer")
       = Some ([(1, [])], peer').
Proof.
  apply (UpdatePresence_frame_round_trip (sample_world true false) (sample_world true true)
           sample_presence (sample_open Connected) (Construct "peer")).
  - reflexivity.
  - by vm_compute.
  - reflexivity.
Defined.

(** X9.  [OnConnected], in whatever state it finds the object, enters
    [SentHandshake] and writes exactly one frame: opcode [Handshake] around
    the JSON text of the object with the two members [v], the number 1, and
    [client_id], the application id.  No other field but the stored delay
    changes, and this decoder reads the frame back as that one pair. *)
Theorem OnConnected_sends_the_handshake (w w' : World) (d peer : DiscordRPC) :
  let data := toJson w (JObject (<["client_id" := JString (application_id_ d)]>
                                   (<["v" := JNumber 1]> ∅))) in
  header_size + QByteArray.size data < 2 ^ 31 ->
  read_buffer_ peer = [] ->
  OnConnected w d
  = socket_write (encode_frame (Opcode_value Handshake) data)
      (set_reconnect_delay kReconnectMinDelayMs (set_state SentHandshake d))
  /\ handshake_frame w d = encode_frame (Opcode_value Handshake) data
  /\ exists peer',
       OnReadyRead w' 1 (encode_frame (Opcode_value Handshake) data) peer
       = Some ([(0, data)], peer').
Proof.
  intros data Hlen Hempty.
  assert (Hframe : handshake_frame w d = encode_frame (Opcode_value Handshake) data).
  { unfold handshake_frame, encode_frame, CreateHandshakeMessage, kRpcVersion. fold data.
    rewrite wrap_quint32_small; [done|]. unfold QByteArray.size, header_size in *. lia. }
  split; [|split; [done|]].
  - rewrite <- Hframe. reflexivity.
  - by apply decode_one_frame.
Qed.

Lemma OnConnected_sends_the_handshake_witness :
  OnConnected (sample_world true false) (sample_open Connecting)
  = socket_write (encode_frame 0 [])
      (set_reconnect_delay kReconnectMinDelayMs (set_state SentHandshake (sample_open Connecting)))
  /\ handshake_frame (sample_world true false) (sample_open Connecting) = encode_frame 0 []
  /\ exists peer',
       OnReadyRead (sample_world true true) 1 (encode_frame 0 []) (Construct "peer")
       = Some ([(0, [])], peer').
Proof.
  apply (OnConnected_sends_the_handshake (sample_world true false) (sample_world true true)
           (sample_open Connecting) (Construct "peer")).
  - by vm_compute.
  - reflexivity.
Defined.

(** ** The nonce *)

Lemma QString_number_inj (n m : Z) : QString_number n = QString_number m -> n = m.
Proof.
  unfold QString_number. intros Heq.
  assert (Hnorm : forall z, Z.to_int z <> Decimal.Pos Decimal.Nil
                            /\ Z.to_int z <> Decimal.Neg Decimal.Nil).
  { intros z. pose proof (DecimalZ.to_of (Z.to_int z)) as H.
    rewrite DecimalZ.of_to in H.
    split; intros Hz; rewrite Hz in H; by vm_compute in H. }
  apply (f_equal NilZero.int_of_string) in Heq.
  rewrite !NilZero.isi in Heq by apply Hnorm.
  injection Heq as Heq. by apply DecimalZ.to_int_inj.
Qed.

(** X10.  Two presence updates in a row, both in [Connected], never carry
    the same nonce: the first command holds the counter's value as a decimal
    string, the second the next value, and the two strings differ. *)
Theorem consecutive_updates_carry_different_nonces
    (w1 w2 : World) (p1 p2 : DiscordPresence) (d : DiscordRPC) :
  state_ d = Connected ->
  let d1 := UpdatePresence w1 p1 d in
  presence_command w1 (nonce_ d) p1 !! "nonce" = Some (JString (QString_number (nonce_ d)))
  /\ presence_command w2 (nonce_ d1) p2 !! "nonce" = Some (JString (QString_number (nonce_ d1)))
  /\ nonce_ d1 = wrap_int (nonce_ d + 1)
  /\ state_ d1 = Connected
  /\ presence_command w1 (nonce_ d) p1 !! "nonce" <> presence_command w2 (nonce_ d1) p2 !! "nonce".
Proof.
  intros Hst d1.
  assert (Hd1 : nonce_ d1 = wrap_int (nonce_ d + 1) /\ state_ d1 = Connected).
  { unfold d1. rewrite UpdatePresence_Connected by done. by cbn. }
  destruct Hd1 as [Hnonce Hst1].
  assert (Hlookup : forall w n p,
            presence_command w n p !! "nonce" = Some (JString (QString_number n))).
  { intros w n p. unfold presence_command. by vm_compute. }
  rewrite !Hlookup. repeat split; try done.
  intros Heq. injection Heq as Heq. apply QString_number_inj in Heq.
  revert Heq. rewrite Hnonce. unfold wrap_int.
  change (2 ^ 31) with 2147483648. change (2 ^ 32) with 4294967296.
  Z.div_mod_to_equations. lia.
Qed.

Lemma consecutive_updates_carry_different_nonces_witness :
  let d := sample_open Connected in
  let d1 := UpdatePresence (sample_world true false) sample_presence d in
  presence_command (sample_world true false) (nonce_ d) sample_presence !! "nonce"
  = Some (JString (QString_number (nonce_ d)))
  /\ presence_command (sample_world true false) (nonce_ d1) DiscordPresence_default !! "nonce"
     = Some (JString (QString_number (nonce_ d1)))
  /\ nonce_ d1 = wrap_int (nonce_ d + 1)
  /\ state_ d1 = Connected
  /\ presence_command (sample_world true false) (nonce_ d) sample_presence !! "nonce"
     <> presence_command (sample_world true false) (nonce_ d1) DiscordPresence_default !! "nonce".
Proof.
  cbv zeta.
  apply (consecutive_updates_carry_different_nonces (sample_world true false)
           (sample_world true false) sample_presence DiscordPresence_default
           (sample_open Connected)).
  reflexivity.
Defined.

(** ** The members of the activity *)

Set Warnings "-clear-no-such-hyp".

Lemma dom_if_insert (c : bool) (k : string) (v : QJsonValue) (m : gmap string QJsonValue) :
  dom (if c then <[k := v]> m else m) = (if c then {[k]} else ∅) ∪ dom m.
Proof.
  destruct c; [apply dom_insert_L|]. set_solver.
Qed.

Lemma lookup_if_insert_ne (c : bool) (k k' : string) (v : QJsonValue)
    (m : gmap string QJsonValue) :
  k <> k' -> (if c then <[k := v]> m else m) !! k' = m !! k'.
Proof.
  intros Hne. destruct c; [by apply lookup_insert_ne|done].
Qed.

Lemma lookup_if_insert_eq (c : bool) (k : string) (v : QJsonValue)
    (m : gmap string QJsonValue) :
  (if c then <[k := v]> m else m) !! k = if c then Some v else m !! k.
Proof.
  destruct c; [by apply lookup_insert_eq|done].
Qed.

(** X11.  Which members the activity has: [instance] always; [type] and
    [status_display_type] together, when the type is from 0 to 5; [name],
    [state], [details] when the string is not empty; [timestamps] when the
    start or the end is positive; [assets] when one of the four image
    strings is not empty; [party] when the id is not empty or the size, the
    maximum or the privacy is positive; [secrets] when one of the three
    secrets is not empty; and no other member. *)
Theorem activity_members (presence : DiscordPresence) :
  dom (activity_object presence)
  = ({["instance"]} : gset string)
    ∪ (if (0 <=? type presence) && (type presence <=? 5)
       then {[ "type"; "status_display_type" ]} else ∅)
    ∪ (if negb (isEmpty (name presence)) then {["name"]} else ∅)
    ∪ (if negb (isEmpty (state presence)) then {["state"]} else ∅)
    ∪ (if negb (isEmpty (details presence)) then {["details"]} else ∅)
    ∪ (if (0 <? start_timestamp presence) || (0 <? end_timestamp presence)
       then {["timestamps"]} else ∅)
    ∪ (if negb (isEmpty (large_image_key presence)) || negb (isEmpty (large_image_text presence))
          || negb (isEmpty (small_image_key presence))
          || negb (isEmpty (small_image_text presence))
       then {["assets"]} else ∅)
    ∪ (if negb (isEmpty (party_id presence)) || (0 <? party_size presence)
          || (0 <? party_max presence) || (0 <? party_privacy presence)
       then {["party"]} else ∅)
    ∪ (if negb (isEmpty (match_secret presence)) || negb (isEmpty (join_secret presence))
          || negb (isEmpty (spectate_secret presence))
       then {["secrets"]} else ∅).
Proof.
  unfold activity_object. cbv zeta.
  rewrite dom_insert_L, !dom_if_insert.
  assert (Htype : dom (if (0 <=? type presence) && (type presence <=? 5)
                       then <["status_display_type" := JNumber (status_display_type presence)]>
                              (<["type" := JNumber (type presence)]> (∅ : gmap string QJsonValue))
                       else ∅)
                  = (if (0 <=? type presence) && (type presence <=? 5)
                     then {[ "type"; "status_display_type" ]} else ∅ : gset string)).
  { destruct (_ && _); [|by rewrite dom_empty_L].
    rewrite !dom_insert_L, dom_empty_L. set_solver. }
  rewrite Htype.
  generalize (if (0 <=? type presence) && (type presence <=? 5)
              then {[ "type"; "status_display_type" ]} else ∅ : gset string).
  intros s0.
  repeat match goal with
         | |- context [if ?c then {[?k]} else ∅] =>
             generalize (if c then ({[k]} : gset string) else ∅); intro
         end.
  set_solver.
Qed.

(** X12.  The [timestamps] member holds exactly the positive timestamps: a
    start or an end that is zero or negative is left out, and with neither
    positive there is no [timestamps] member at all. *)
Theorem timestamps_member (presence : DiscordPresence) :
  activity_object presence !! "timestamps"
  = match 0 <? start_timestamp presence, 0 <? end_timestamp presence with
    | true, true =>
        Some (JObject (<["end" := JNumber (end_timestamp presence)]>
                         (<["start" := JNumber (start_timestamp presence)]> ∅)))
    | true, false => Some (JObject (<["start" := JNumber (start_timestamp presence)]> ∅))
    | false, true => Some (JObject (<["end" := JNumber (end_timestamp presence)]> ∅))
    | false, false => None
    end.
Proof.
  unfold activity_object. cbv zeta.
  rewrite lookup_insert_ne by done.
  rewrite !lookup_if_insert_ne by done.
  rewrite lookup_if_insert_eq.
  rewrite !lookup_if_insert_ne by done.
  assert (Hbase : (if (0 <=? type presence) && (type presence <=? 5)
                   then <["status_display_type" := JNumber (status_display_type presence)]>
                          (<["type" := JNumber (type presence)]> (∅ : gmap string QJsonValue))
                   else ∅) !! "timestamps" = None).
  { destruct (_ && _); [|done]. by rewrite !lookup_insert_ne. }
  rewrite Hbase.
  by destruct (0 <? start_timestamp presence), (0 <? end_timestamp presence).
Qed.

(** X13.  The [party] member.  It is present when the id is not empty or
    the size, the maximum or the privacy is positive.  Inside it, [id] is
    present for a non-empty id, [privacy] for a positive privacy, and [size]
    -- the pair of size and maximum, in that order -- only when both are
    positive.  So a positive size with no maximum, no id and no privacy
    gives a [party] member that is the empty object. *)
Theorem party_member (presence : DiscordPresence) :
  (negb (isEmpty (party_id presence)) || (0 <? party_size presence)
   || (0 <? party_max presence) || (0 <? party_privacy presence) = false ->
   activity_object presence !! "party" = None)
  /\ (negb (isEmpty (party_id presence)) || (0 <? party_size presence)
      || (0 <? party_max presence) || (0 <? party_privacy presence) = true ->
      exists party,
        activity_object presence !! "party" = Some (JObject party)
        /\ party !! "id"
           = (if negb (isEmpty (party_id presence))
              then Some (JString (party_id presence)) else None)
        /\ party !! "size"
           = (if (0 <? party_size presence) && (0 <? party_max presence)
              then Some (JArray [JNumber (party_size presence); JNumber (party_max presence)])
              else None)
        /\ party !! "privacy"
           = (if 0 <? party_privacy presence
              then Some (JNumber (party_privacy presence)) else None)
        /\ (isEmpty (party_id presence) = true ->
            (0 <? party_max presence) = false ->
            (0 <? party_privacy presence) = false ->
            party = ∅)).
Proof.
  assert (Hbase : forall m0 : gmap string QJsonValue,
            m0 !! "party" = None ->
            (if (0 <? start_timestamp presence) || (0 <? end_timestamp presence)
             then <["timestamps" := JObject
                      (if 0 <? end_timestamp presence
                       then <["end" := JNumber (end_timestamp presence)]>
                              (if 0 <? start_timestamp presence
                               then <["start" := JNumber (start_timestamp presence)]> ∅
                               else ∅)
                       else if 0 <? start_timestamp presence
                            then <["start" := JNumber (start_timestamp presence)]> ∅
                            else ∅)]> m0
             else m0) !! "party" = None).
  { intros m0 Hm0. by rewrite lookup_if_insert_ne. }
  unfold activity_object. cbv zeta.
  rewrite lookup_insert_ne by done.
  rewrite lookup_if_insert_ne by done.
  rewrite lookup_if_insert_eq.
  rewrite !lookup_if_insert_ne by done.
  assert (Htype : (if (0 <=? type presence) && (type presence <=? 5)
                   then <["status_display_type" := JNumber (status_display_type presence)]>
                          (<["type" := JNumber (type presence)]> (∅ : gmap string QJsonValue))
                   else ∅) !! "party" = None).
  { destruct (_ && _); [|done]. by rewrite !lookup_insert_ne. }
  rewrite Htype.
  split; intros Hcond; rewrite Hcond; [done|].
  eexists. split; [reflexivity|].
  split; [|split; [|split]].
  - rewrite !lookup_if_insert_ne by done. rewrite lookup_if_insert_eq. by rewrite lookup_empty.
  - rewrite lookup_if_insert_ne by done. rewrite lookup_if_insert_eq.
    rewrite lookup_if_insert_ne by done. by rewrite lookup_empty.
  - rewrite lookup_if_insert_eq. rewrite !lookup_if_insert_ne by done. by rewrite lookup_empty.
  - intros Hid Hmax Hprivacy. rewrite Hid, Hmax, Hprivacy. cbn.
    by rewrite andb_false_r.
Qed.

Lemma party_member_witness :
  let presence := {|
    type := 9; status_display_type := 0; name := ""; state := ""; details := "";
    start_timestamp := 0; end_timestamp := 0;
    large_image_key := ""; large_image_text := "";
    small_image_key := ""; small_image_text := "";
    party_id := ""; party_size := 3; party_max := 0; party_privacy := 0;
    match_secret := ""; join_secret := ""; spectate_secret := ""; instance := true |} in
  activity_object presence !! "party" = Some (JObject ∅)
  /\ activity_object presence
     = <["instance" := JBool true]> (<["party" := JObject ∅]> ∅).
Proof.
  cbv zeta. split; [|by vm_compute].
  destruct (party_member {|
    type := 9; status_display_type := 0; name := ""; state := ""; details := "";
    start_timestamp := 0; end_timestamp := 0;
    large_image_key := ""; large_image_text := "";
    small_image_key := ""; small_image_text := "";
    party_id := ""; party_size := 3; party_max := 0; party_privacy := 0;
    match_secret := ""; join_secret := ""; spectate_secret := ""; instance := true |})
    as [_ Hparty].
  destruct Hparty as (party & Hlookup & _ & _ & _ & Hempty); [reflexivity|].
  rewrite Hlookup. f_equal. f_equal. by apply Hempty.
Defined.

(** X14.  The [assets] and [secrets] members hold exactly the non-empty
    strings: each image key or text, and each secret, is a member of its
    object when it is not empty and absent when it is; an object whose
    strings are all empty is not sent at all. *)
Theorem assets_and_secrets_members (presence : DiscordPresence) :
  (activity_object presence !! "assets" = None
   /\ isEmpty (large_image_key presence) = true /\ isEmpty (large_image_text presence) = true
   /\ isEmpty (small_image_key presence) = true /\ isEmpty (small_image_text presence) = true
   \/ exists assets,
        activity_object presence !! "assets" = Some (JObject assets)
        /\ assets !! "large_image"
           = (if isEmpty (large_image_key presence) then None
              else Some (JString (large_image_key presence)))
        /\ assets !! "large_text"
           = (if isEmpty (large_image_text presence) then None
              else Some (JString (large_image_text presence)))
        /\ assets !! "small_image"
           = (if isEmpty (small_image_key presence) then None
              else Some (JString (small_image_key presence)))
        /\ assets !! "small_text"
           = (if isEmpty (small_image_text presence) then None
              else Some (JString (small_image_text presence)))
        /\ assets <> ∅)
  /\ (activity_object presence !! "secrets" = None
      /\ isEmpty (match_secret presence) = true /\ isEmpty (join_secret presence) = true
      /\ isEmpty (spectate_secret presence) = true
      \/ exists secrets,
           activity_object presence !! "secrets" = Some (JObject secrets)
           /\ secrets !! "match"
              = (if isEmpty (match_secret presence) then None
                 else Some (JString (match_secret presence)))
           /\ secrets !! "join"
              = (if isEmpty (join_secret presence) then None
                 else Some (JString (join_secret presence)))
           /\ secrets !! "spectate"
              = (if isEmpty (spectate_secret presence) then None
                 else Some (JString (spectate_secret presence)))
           /\ secrets <> ∅).
Proof.
  assert (Htype : forall key : string,
            key <> "type"%string -> key <> "status_display_type"%string ->
            (if (0 <=? type presence) && (type presence <=? 5)
             then <["status_display_type" := JNumber (status_display_type presence)]>
                    (<["type" := JNumber (type presence)]> (∅ : gmap string QJsonValue))
             else ∅) !! key = None).
  { intros key H1 H2. destruct (_ && _); [|done]. by rewrite !lookup_insert_ne. }
  unfold activity_object. cbv zeta. split.
  - rewrite lookup_insert_ne by done.
    rewrite !lookup_if_insert_ne by done.
    rewrite lookup_if_insert_eq.
    rewrite !lookup_if_insert_ne by done.
    rewrite Htype by done.
    destruct (isEmpty (large_image_key presence)) eqn:H1,
             (isEmpty (large_image_text presence)) eqn:H2,
             (isEmpty (small_image_key presence)) eqn:H3,
             (isEmpty (small_image_text presence)) eqn:H4; cbn [negb orb];
      try (by left);
      (right; eexists; split; [reflexivity|];
       repeat split; try (by vm_compute);
       intros Hmt; apply (f_equal size) in Hmt; by vm_compute in Hmt
       || (intros Hmt;
           match type of Hmt with
           | <[?k := ?v]> ?m = ∅ => by apply insert_non_empty in Hmt
           end)).
  - rewrite lookup_insert_ne by done.
    rewrite lookup_if_insert_eq.
    rewrite !lookup_if_insert_ne by done.
    rewrite Htype by done.
    destruct (isEmpty (match_secret presence)) eqn:H1,
             (isEmpty (join_secret presence)) eqn:H2,
             (isEmpty (spectate_secret presence)) eqn:H3; cbn [negb orb];
      try (by left);
      (right; eexists; split; [reflexivity|];
       repeat split; try (by vm_compute);
       intros Hmt;
       match type of Hmt with
       | <[?k := ?v]> ?m = ∅ => by apply insert_non_empty in Hmt
       end).
Qed.

(** X15.  In [Connected], [ClearPresence] does send a command: one
    [Frame]-opcode frame around the JSON text of [SET_ACTIVITY] with the
    current nonce, the process id, and an activity that holds [type] 0,
    [status_display_type] 0 and [instance] false and nothing else; the
    nonce counter moves on. *)
Theorem ClearPresence_sends_the_default_activity (w : World) (d : DiscordRPC) :
  state_ d = Connected ->
  let activity : gmap string QJsonValue :=
    <["instance" := JBool false]>
      (<["status_display_type" := JNumber 0]> (<["type" := JNumber 0]> ∅)) in
  let args : gmap string QJsonValue :=
    <["activity" := JObject activity]> (<["pid" := JNumber (getpid w)]> ∅) in
  let command : gmap string QJsonValue :=
    <["args" := JObject args]>
      (<["nonce" := JString (QString_number (nonce_ d))]>
         (<["cmd" := JString "SET_ACTIVITY"]> ∅)) in
  let data := toJson w (JObject command) in
  ClearPresence w d
  = socket_write (frame_bytes (Opcode_value Frame) (wrap_quint32 (QByteArray.size data)) data)
                 (set_nonce (wrap_int (nonce_ d + 1)) d).
Proof.
  intros Hst activity args command data.
  unfold ClearPresence. by rewrite UpdatePresence_Connected.
Qed.

Lemma ClearPresence_sends_the_default_activity_witness :
  ClearPresence (sample_world true false) (sample_open Connected)
  = socket_write (frame_bytes 1 0 []) (set_nonce 2 (sample_open Connected)).
Proof.
  apply (ClearPresence_sends_the_default_activity (sample_world true false)
           (sample_open Connected)).
  reflexivity.
Defined.

(** ** Looking for the peer *)

Lemma find_first (f : string -> bool) (before after : list string) (path : string) :
  Forall (fun p => f p = false) before -> f path = true ->
  List.find f (before ++ path :: after) = Some path.
Proof.
  induction 1 as [|p before Hp _ IH]; intros Hpath; cbn.
  - by rewrite Hpath.
  - rewrite Hp. by apply IH.
Qed.

(** X16.  The candidates.  The directories are the non-empty ones among
    the values of XDG_RUNTIME_DIR, TMPDIR, TMP and TEMP, in that order, and
    then always /tmp; each directory contributes ten candidates in order,
    made from the template by [arg] with the directory and then with 0 to
    9.  So there are between 10 and 50 candidates, and the last ten are
    those of /tmp; they are /tmp/discord-ipc-0 to /tmp/discord-ipc-9 when
    [arg] puts /tmp and the number into the template's own two markers.
    What a directory contributes whose name holds a place marker is left
    to [arg]. *)
Theorem candidate_sockets (w : World) :
  temp_paths w
  = filter (fun dir => negb (isEmpty dir))
           (map (qEnvironmentVariable w) ["XDG_RUNTIME_DIR"; "TMPDIR"; "TMP"; "TEMP"]%string)
    ++ ["/tmp"%string]
  /\ socket_paths w
     = flat_map (fun dir =>
                   map (fun i => arg_int w (arg_QString w "%1/discord-ipc-%2" dir) (Z.of_nat i))
                       (seq 0 10))
                (temp_paths w)
  /\ (length (socket_paths w) = 10 * length (temp_paths w))%nat
  /\ (10 <= length (socket_paths w) <= 50)%nat
  /\ drop (length (socket_paths w) - 10) (socket_paths w)
     = map (fun i => socket_path w "/tmp" (Z.of_nat i)) (seq 0 10)
  /\ (arg_QString w "%1/discord-ipc-%2" "/tmp" = "/tmp/discord-ipc-%2"%string ->
      (forall i, 0 <= i < 10 ->
                 arg_int w "/tmp/discord-ipc-%2" i
                 = ("/tmp/discord-ipc-" ++ QString_number i)%string) ->
      drop (length (socket_paths w) - 10) (socket_paths w)
      = [ "/tmp/discord-ipc-0"; "/tmp/discord-ipc-1"; "/tmp/discord-ipc-2";
          "/tmp/discord-ipc-3"; "/tmp/discord-ipc-4"; "/tmp/discord-ipc-5";
          "/tmp/discord-ipc-6"; "/tmp/discord-ipc-7"; "/tmp/discord-ipc-8";
          "/tmp/discord-ipc-9" ]%string).
Proof.
  assert (Hdirs : temp_paths w
                  = filter (fun dir => negb (isEmpty dir))
                      (map (qEnvironmentVariable w)
                           ["XDG_RUNTIME_DIR"; "TMPDIR"; "TMP"; "TEMP"]%string)
                    ++ ["/tmp"%string]).
  { unfold temp_paths. cbn [map filter list_filter].
    by destruct (isEmpty (qEnvironmentVariable w "XDG_RUNTIME_DIR")),
                (isEmpty (qEnvironmentVariable w "TMPDIR")),
                (isEmpty (qEnvironmentVariable w "TMP")),
                (isEmpty (qEnvironmentVariable w "TEMP")). }
  assert (Hlen : forall dirs : list string,
            length (flat_map (fun temp_path =>
                                map (fun i => socket_path w temp_path (Z.of_nat i)) (seq 0 10))
                             dirs)
            = (10 * length dirs)%nat).
  { induction dirs as [|dir dirs IH]; [done|].
    cbn [flat_map]. rewrite length_app, IH. cbn [length map seq]. lia. }
  assert (Hlast : drop (length (socket_paths w) - 10) (socket_paths w)
                  = map (fun i => socket_path w "/tmp" (Z.of_nat i)) (seq 0 10)).
  { unfold socket_paths. rewrite Hlen.
    rewrite Hdirs, flat_map_app, length_app. cbn [length].
    set (dirs := filter _ _).
    replace (10 * (length dirs + 1) - 10)%nat with (10 * length dirs)%nat by lia.
    rewrite <- (Hlen dirs), drop_app_length. cbn [flat_map]. by rewrite app_nil_r. }
  split; [done|]. split; [done|].
  split; [unfold socket_paths; by rewrite Hlen|].
  split.
  - unfold socket_paths. rewrite Hlen, Hdirs, length_app. cbn [length].
    assert (length (filter (fun dir => negb (isEmpty dir))
                      (map (qEnvironmentVariable w)
                         ["XDG_RUNTIME_DIR"; "TMPDIR"; "TMP"; "TEMP"]%string)) <= 4)%nat
      by (etransitivity; [apply length_filter|]; done).
    lia.
  - split; [done|]. intros Hdir Hnumber. rewrite Hlast.
    unfold socket_path. rewrite Hdir. cbn [map seq].
    rewrite !Hnumber by (by vm_compute). reflexivity.
Qed.

Lemma candidate_sockets_witness :
  let w := sample_world true false in
  drop (length (socket_paths w) - 10) (socket_paths w)
  = [ "/tmp/discord-ipc-0"; "/tmp/discord-ipc-1"; "/tmp/discord-ipc-2";
      "/tmp/discord-ipc-3"; "/tmp/discord-ipc-4"; "/tmp/discord-ipc-5";
      "/tmp/discord-ipc-6"; "/tmp/discord-ipc-7"; "/tmp/discord-ipc-8";
      "/tmp/discord-ipc-9" ]%string.
Proof.
  cbv zeta.
  destruct (candidate_sockets (sample_world true false)) as (_ & _ & _ & _ & _ & Hlast).
  apply Hlast.
  - reflexivity.
  - intros i Hi.
    assert (Hcases : i = 0 \/ i = 1 \/ i = 2 \/ i = 3 \/ i = 4
                     \/ i = 5 \/ i = 6 \/ i = 7 \/ i = 8 \/ i = 9) by lia.
    repeat (destruct Hcases as [-> | Hcases]; [reflexivity|]). by subst i.
Defined.

(** With the sample [arg], a directory name can bring the lowest marker
    with it: the number then goes into the directory's name, and the
    socket's name keeps the template's second marker. *)
Lemma place_marker_in_the_directory_name :
  map (fun i => socket_path (sample_world true false) "/tmp/x%1y" (Z.of_nat i)) (seq 0 3)
  = [ "/tmp/x0y/discord-ipc-%2"; "/tmp/x1y/discord-ipc-%2"; "/tmp/x2y/discord-ipc-%2" ]%string.
Proof. reflexivity. Qed.

(** X17.  The first candidate that accepts wins.  When an attempt starts in
    [Disconnected] -- through [Initialize], or through the timer when it is
    armed -- and some candidate listens while none before it in the order
    does, then once the socket has reported the connection, which it does
    before the attempt returns, the socket is connected to that candidate
    and to no later one, the state is [SentHandshake], the stored delay is
    the floor, and exactly the handshake frame has been written after what
    was written before; no timer is armed, and the nonce and the read
    buffer are kept. *)
Theorem first_listening_candidate_wins
    (w : World) (fuel : nat) (d : DiscordRPC)
    (before after : list string) (path : string) :
  state_ d = Disconnected ->
  socket_paths w = before ++ path :: after ->
  Forall (fun p => listening w p = false) before ->
  listening w path = true ->
  run fuel [(w, CallInitialize); (w, SigConnected)] d
  = Some (OnConnected w (socket_connected_to path (set_state Connecting d)))
  /\ (is_Some (reconnect_timer_ d) ->
      run fuel [(w, SigTimeout); (w, SigConnected)] d
      = Some (OnConnected w (socket_connected_to path
                               (set_state Connecting (set_reconnect_timer None d)))))
  /\ forall d0,
       let d' := OnConnected w (socket_connected_to path (set_state Connecting d0)) in
       sock_state (socket_ d') = ConnectedState
       /\ sock_server (socket_ d') = path
       /\ sock_writes (socket_ d') = sock_writes (socket_ d0) ++ [handshake_frame w d0]
       /\ state_ d' = SentHandshake
       /\ reconnect_delay_ d' = kReconnectMinDelayMs
       /\ reconnect_timer_ d' = reconnect_timer_ d0
       /\ nonce_ d' = nonce_ d0
       /\ read_buffer_ d' = read_buffer_ d0
       /\ application_id_ d' = application_id_ d0.
Proof.
  intros Hst Hpaths Hbefore Hpath.
  assert (Hfound : List.find (listening w) (socket_paths w) = Some path).
  { rewrite Hpaths. by apply find_first. }
  split; [|split].
  - cbn [run step]. unfold Initialize. rewrite Hst. cbn [State_eqb negb].
    by rewrite (ConnectToDiscord_found w d path).
  - intros [ms Hms]. cbn [run step]. rewrite Hms. unfold OnReconnectTimer.
    by rewrite (ConnectToDiscord_found w _ path).
  - intros d0. cbv zeta. by repeat split.
Qed.

Lemma first_listening_candidate_wins_witness :
  let w := {| qEnvironmentVariable :=
                fun v => if String.eqb v "XDG_RUNTIME_DIR" then "/run/user/1000"%string
                         else ""%string;
              getpid := 1;
              listening := fun path => String.eqb path "/run/user/1000/discord-ipc-1"
                                       || String.eqb path "/tmp/discord-ipc-0";
              toJson := fun _ => [];
              fromJson := fun _ => None;
              arg_QString := sample_arg;
              arg_int := fun template i => sample_arg template (QString_number i);
              closes_at_once := true |} in
  let d := Construct "strawberry" in
  exists d',
    run 0 [(w, CallInitialize); (w, SigConnected)] d = Some d'
    /\ sock_state (socket_ d') = ConnectedState
    /\ sock_server (socket_ d') = "/run/user/1000/discord-ipc-1"%string
    /\ sock_writes (socket_ d') = [handshake_frame w d]
    /\ state_ d' = SentHandshake
    /\ reconnect_delay_ d' = kReconnectMinDelayMs.
Proof.
  cbv zeta.
  match goal with
  | |- exists d', run 0 [(?w, _); _] ?d = _ /\ _ =>
      destruct (first_listening_candidate_wins w 0 d
                  ["/run/user/1000/discord-ipc-0"%string]
                  (map (fun i => socket_path w "/run/user/1000" (Z.of_nat i)) (seq 2 8)
                   ++ map (fun i => socket_path w "/tmp" (Z.of_nat i)) (seq 0 10))
                  "/run/user/1000/discord-ipc-1") as (Hrun & _ & Hfields)
  end.
  - reflexivity.
  - by vm_compute.
  - repeat constructor.
  - reflexivity.
  - eexists. split; [exact Hrun|].
    destruct (Hfields (Construct "strawberry")) as (H1 & H2 & H3 & H4 & H5 & _).
    by repeat split.
Defined.

(** X18.  When the retries come.  Starting from the floor, when n attempts
    in a row have found no peer and the next one finds none either, the
    timer is armed with min(floor * 2^n, ceiling): 500 ms after the first
    failure, then 1000, 2000, ... and 60000 from the eighth on. *)
Theorem retry_intervals (ws : list World) (w : World) (d : DiscordRPC) :
  Forall deaf ws -> deaf w ->
  state_ d = Disconnected ->
  reconnect_delay_ d = kReconnectMinDelayMs ->
  exists d',
    run 0 (attempts (ws ++ [w])) d = Some d'
    /\ state_ d' = Disconnected
    /\ reconnect_timer_ d'
       = Some (Z.min (kReconnectMinDelayMs * 2 ^ Z.of_nat (length ws)) kReconnectMaxDelayMs).
Proof.
  intros Hdeaf Hw Hst Hfloor.
  destruct (attempts_fail 0 ws d Hdeaf Hst) as (d1 & Hrun & Hst1 & Htimer1 & Hdelay1).
  { rewrite Hfloor. by vm_compute. }
  rewrite Hfloor in Hdelay1.
  assert (Hrange : 0 < reconnect_delay_ d1 <= kReconnectMaxDelayMs).
  { rewrite Hdelay1. unfold kReconnectMinDelayMs, kReconnectMaxDelayMs.
    pose proof (Z.pow_pos_nonneg 2 (Z.of_nat (length ws))). lia. }
  rewrite attempts_snoc, run_app, Hrun. cbn [run].
  destruct (decide (ws = [])) as [Hnil|Hcons]; cbn [step].
  - unfold Initialize. rewrite Hst1. cbn [State_eqb negb].
    destruct (failed_attempt w d1 Hw Hst1 Hrange) as (Hst2 & Htimer2 & _).
    eexists. split; [reflexivity|]. split; [done|]. by rewrite Htimer2, Hdelay1.
  - destruct (Htimer1 Hcons) as [ms Hms]. rewrite Hms. unfold OnReconnectTimer.
    destruct (failed_attempt w (set_reconnect_timer None d1) Hw Hst1 Hrange)
      as (Hst2 & Htimer2 & _).
    eexists. split; [reflexivity|]. split; [done|].
    rewrite Htimer2. cbn. by rewrite Hdelay1.
Qed.

Lemma retry_intervals_witness :
  exists d',
    run 0 (attempts (repeat (sample_world false false) 8 ++ [sample_world false true]))
        (Construct "strawberry") = Some d'
    /\ state_ d' = Disconnected
    /\ reconnect_timer_ d'
       = Some (Z.min (kReconnectMinDelayMs
                      * 2 ^ Z.of_nat (length (repeat (sample_world false false) 8)))
                     kReconnectMaxDelayMs).
Proof.
  apply (retry_intervals (repeat (sample_world false false) 8) (sample_world false true)
           (Construct "strawberry")).
  - repeat constructor; by vm_compute.
  - by vm_compute.
  - reflexivity.
  - reflexivity.
Defined.

(** ** After a shutdown *)

(** X19.  When the socket is unconnected, [Shutdown] really ends it: the
    result is the object with the timer unarmed and the state
    [Disconnected], and from there no input but [Initialize] changes
    anything -- no signal of the socket or the timer can be delivered, and
    presence updates are dropped. *)
Theorem Shutdown_of_an_unconnected_socket_is_final
    (w : World) (fuel : nat) (inputs : list (World * Input)) (d : DiscordRPC) :
  sock_state (socket_ d) = UnconnectedState ->
  Forall (fun wi => wi.2 <> CallInitialize) inputs ->
  Shutdown w d = set_state Disconnected (set_reconnect_timer None d)
  /\ run fuel inputs (Shutdown w d) = Some (Shutdown w d).
Proof.
  intros Hsock Hinputs.
  rewrite (Shutdown_unconnected w d Hsock). split; [done|].
  induction Hinputs as [|[w' i] inputs Hi _ IH]; [done|].
  cbn [run]. cbn in Hi.
  assert (Hstep : step w' fuel i (set_state Disconnected (set_reconnect_timer None d))
                  = Some (set_state Disconnected (set_reconnect_timer None d))).
  { destruct i; try done; cbn [step].
    - unfold Shutdown. cbn. by rewrite Hsock.
    - cbn. by rewrite Hsock.
    - cbn. by rewrite Hsock.
    - cbn. by rewrite Hsock. }
  by rewrite Hstep.
Qed.

Lemma Shutdown_of_an_unconnected_socket_is_final_witness :
  let d := set_reconnect_timer (Some 4000)
             (set_reconnect_delay 8000 (set_read_buffer [x01] (Construct "strawberry"))) in
  let inputs := [ (sample_world true true, SigTimeout);
                  (sample_world true true, SigReadyRead (encode_frame 3 []));
                  (sample_world true true, CallUpdatePresence sample_presence);
                  (sample_world true true, SigConnected);
                  (sample_world true true, CallShutdown);
                  (sample_world true true, SigDisconnected) ] in
  Shutdown (sample_world true true) d = set_state Disconnected (set_reconnect_timer None d)
  /\ run 3 inputs (Shutdown (sample_world true true) d) = Some (Shutdown (sample_world true true) d).
Proof.
  cbv zeta.
  apply (Shutdown_of_an_unconnected_socket_is_final (sample_world true true) 3).
  - reflexivity.
  - repeat constructor; discriminate.
Defined.

(** ** Invariants of the reachable states *)

(** A property that the constructor establishes and that the functions
    behind the inputs keep holds in every reachable state. *)
Lemma reachable_invariant (P : DiscordRPC -> Prop) :
  (forall application_id, P (Construct application_id)) ->
  (forall w d, P d -> P (ConnectToDiscord w d)) ->
  (forall w d, P d -> P (Shutdown w d)) ->
  (forall w presence d, P d -> P (UpdatePresence w presence d)) ->
  (forall w d, P d -> P (OnConnected w d)) ->
  (forall d, P d -> P (OnDisconnected (socket_set_state UnconnectedState d))) ->
  (forall b d, P d -> P (set_read_buffer b d)) ->
  (forall w opcode length data d, P d -> P (dispatch w opcode length data d)) ->
  (forall d, P d -> P (set_reconnect_timer None d)) ->
  forall d, reachable d -> P d.
Proof.
  intros HConstruct HConnect HShutdown HUpdate HOnConnected HOnDisconnected Hbuffer
         Hdispatch Htimer.
  assert (Hpass : forall w fuel d events d',
            ProcessIncomingData w fuel d = Some (events, d') -> P d -> P d').
  { intros w. induction fuel as [|fuel IH]; intros d events d' Hrun Hd.
    - cbn [ProcessIncomingData] in Hrun.
      destruct (_ <? _); [|done]. by injection Hrun as _ <-.
    - cbn [ProcessIncomingData] in Hrun.
      destruct (_ <? _); [by injection Hrun as _ <-|].
      destruct (_ <? _); [by injection Hrun as _ <-|].
      destruct (ProcessIncomingData w fuel _) as [[events' d'']|] eqn:Hrest; [|done].
      injection Hrun as _ <-. eapply IH; [exact Hrest|].
      by apply Hdispatch, Hbuffer. }
  induction 1 as [application_id|w fuel i d d' _ IH Hstep]; [done|].
  destruct i; cbn [step] in Hstep.
  - injection Hstep as <-. unfold Initialize. destruct (negb _); [done|by apply HConnect].
  - injection Hstep as <-. by apply HShutdown.
  - injection Hstep as <-. by apply HUpdate.
  - injection Hstep as <-. by apply HUpdate.
  - destruct (sock_state (socket_ d)); injection Hstep as <-; try done. by apply HOnConnected.
  - destruct (sock_state (socket_ d)); injection Hstep as <-; try done;
      by apply HOnDisconnected.
  - destruct (sock_state (socket_ d)); try (by injection Hstep as <-);
      (destruct (OnReadyRead w fuel readAll d) as [[events d'']|] eqn:Hread; [|done];
       injection Hstep as <-; eapply Hpass; [exact Hread|by apply Hbuffer]).
  - by injection Hstep as <-.
  - destruct (reconnect_timer_ d); injection Hstep as <-; [|done].
    by apply HConnect, Htimer.
Qed.

Lemma sends_opcode_frame_bytes (opcode length : Z) (data : QByteArray) :
  opcode = Opcode_value Handshake \/ opcode = Opcode_value Frame \/ opcode = Opcode_value Pong ->
  sends_opcode (frame_bytes opcode length data).
Proof.
  intros Hop. unfold sends_opcode, frame_bytes. split.
  - unfold QByteArray.size. rewrite !length_app, !quint32_bytes_length. lia.
  - rewrite read_quint32_bytes; [done|].
    destruct Hop as [-> | [-> | ->]]; by vm_compute.
Qed.

Lemma socket_disconnectFromServer_writes (w : World) (d : DiscordRPC) :
  sock_writes (socket_ (socket_disconnectFromServer w d)) = sock_writes (socket_ d)
  /\ application_id_ (socket_disconnectFromServer w d) = application_id_ d.
Proof.
  unfold socket_disconnectFromServer.
  destruct (sock_state (socket_ d)); try done; by destruct (closes_at_once w).
Qed.

Lemma ConnectToDiscord_writes (w : World) (d : DiscordRPC) :
  sock_writes (socket_ (ConnectToDiscord w d)) = sock_writes (socket_ d)
  /\ application_id_ (ConnectToDiscord w d) = application_id_ d.
Proof.
  unfold ConnectToDiscord.
  destruct (negb _); [done|]. by destruct (List.find _ _).
Qed.

Lemma sends_only_known_frames_reachable (d : DiscordRPC) :
  reachable d -> sends_only_known_frames d.
Proof.
  apply reachable_invariant; unfold sends_only_known_frames.
  - intros application_id. constructor.
  - intros w d0 Hd. by rewrite (proj1 (ConnectToDiscord_writes w d0)).
  - intros w d0 Hd. unfold Shutdown.
    destruct (sock_state (socket_ (set_reconnect_timer None d0)));
      cbn [set_state socket_]; try done;
      by rewrite (proj1 (socket_disconnectFromServer_writes w _)).
  - intros w presence d0 Hd. unfold UpdatePresence.
    destruct (State_eqb (state_ d0) Connected) eqn:Hst; [|done].
    cbn. unfold SendFrame. cbn. rewrite Hst. cbn.
    apply Forall_app. split; [done|]. constructor; [|constructor].
    apply sends_opcode_frame_bytes. by right; left.
  - intros w d0 Hd. cbn.
    apply Forall_app. split; [done|]. constructor; [|constructor].
    apply sends_opcode_frame_bytes. by left.
  - done.
  - done.
  - intros w opcode length data d0 Hd. unfold dispatch.
    destruct (Opcode_of opcode) as [[| | | |]|]; try done.
    + by destruct (HandleMessage_fields w data d0) as [->|[_ ->]].
    + by rewrite (proj1 (socket_disconnectFromServer_writes w d0)).
    + cbn. apply Forall_app. split; [done|]. constructor; [|constructor].
      apply sends_opcode_frame_bytes. by right; right.
  - done.
Qed.

(** X20.  This client only ever sends [Handshake], [Frame] and [Pong]
    frames: in every reachable state, each byte array handed to the socket
    is at least a header long and starts with opcode 0, 1 or 4 -- never a
    [Close] and never a [Ping]. *)
Theorem only_handshake_frame_and_pong_are_sent (d : DiscordRPC) :
  reachable d ->
  Forall (fun frame =>
            8 <= QByteArray.size frame
            /\ (read_quint32 frame = 0 \/ read_quint32 frame = 1 \/ read_quint32 frame = 4))
         (sock_writes (socket_ d)).
Proof.
  intros Hreach. exact (sends_only_known_frames_reachable d Hreach).
Qed.

Lemma only_handshake_frame_and_pong_are_sent_witness :
  Forall (fun frame =>
            8 <= QByteArray.size frame
            /\ (read_quint32 frame = 0 \/ read_quint32 frame = 1 \/ read_quint32 frame = 4))
         (sock_writes (socket_ sample_handshaking)).
Proof.
  apply (only_handshake_frame_and_pong_are_sent sample_handshaking).
  exact sample_handshaking_reachable.
Defined.




Lemma ScheduleReconnect_timing (d : DiscordRPC) :
  timing_in_range d -> timing_in_range (ScheduleReconnect d).
Proof.
  unfold timing_in_range, ScheduleReconnect, kReconnectMinDelayMs, kReconnectMaxDelayMs.
  cbn. intros [Hdelay _]. split.
  - rewrite wrap_int_small; lia.
  - intros ms [= <-]. lia.
Qed.

Lemma socket_disconnectFromServer_timing (w : World) (d : DiscordRPC) :
  timing_in_range d -> timing_in_range (socket_disconnectFromServer w d).
Proof.
  intros Hd. unfold socket_disconnectFromServer.
  destruct (sock_state (socket_ d)); try done;
    (destruct (closes_at_once w); [by apply ScheduleReconnect_timing|done]).
Qed.

Lemma timing_in_range_reachable (d : DiscordRPC) : reachable d -> timing_in_range d.
Proof.
  apply reachable_invariant.
  - intros application_id. split; [by vm_compute|done].
  - intros w d0 Hd. unfold ConnectToDiscord.
    destruct (negb _); [done|]. destruct (List.find _ _); [done|].
    by apply ScheduleReconnect_timing.
  - intros w d0 [Hdelay Htimer]. unfold Shutdown.
    assert (H0 : timing_in_range (set_reconnect_timer None d0)) by (by split).
    destruct (sock_state (socket_ (set_reconnect_timer None d0))); try done;
      by apply (socket_disconnectFromServer_timing w) in H0.
  - intros w presence d0 Hd. unfold UpdatePresence.
    destruct (State_eqb (state_ d0) Connected) eqn:Hst; [|done].
    cbn. unfold SendFrame. cbn. by rewrite Hst.
  - intros w d0 [Hdelay Htimer]. split; [by vm_compute|done].
  - intros d0 Hd. by apply (ScheduleReconnect_timing (set_read_buffer [] (set_state Disconnected
                                 (socket_set_state UnconnectedState d0)))).
  - done.
  - intros w opcode length data d0 Hd. unfold dispatch.
    destruct (Opcode_of opcode) as [[| | | |]|]; try done.
    + by destruct (HandleMessage_fields w data d0) as [->|[_ ->]].
    + by apply socket_disconnectFromServer_timing.
  - intros d0 [Hdelay Htimer]. by split.
Qed.

(** X22.  No busy loop: in every reachable state the stored delay lies
    between the floor and the ceiling, and so does the interval of an armed
    reconnect timer -- a retry is never scheduled sooner than 500 ms nor
    later than 60000 ms. *)
Theorem timer_and_delay_stay_in_range (d : DiscordRPC) :
  reachable d ->
  500 <= reconnect_delay_ d <= 60000
  /\ forall ms, reconnect_timer_ d = Some ms -> 500 <= ms <= 60000.
Proof.
  intros Hreach. exact (timing_in_range_reachable d Hreach).
Qed.

Lemma timer_and_delay_stay_in_range_witness :
  500 <= reconnect_delay_ sample_handshaking <= 60000
  /\ forall ms, reconnect_timer_ sample_handshaking = Some ms -> 500 <= ms <= 60000.
Proof.
  apply (timer_and_delay_stay_in_range sample_handshaking).
  exact sample_handshaking_reachable.
Defined.

(** ** A session from start to ready, and back after a drop *)

(** X23.  The way into a session: on a fresh object, [Initialize] with a
    peer listening, then the socket's [connected()], then one read that
    delivers a [Frame]-opcode frame with the ready message, make
    [IsConnected] true.  By then exactly one frame has been written, the
    handshake; the nonce counter is still 1, the delay is the floor, no
    timer is armed and the buffer is empty. *)
Theorem session_is_established
    (w1 w2 w3 : World) (application_id : string) (data : QByteArray)
    (obj : gmap string QJsonValue) :
  ~ deaf w1 ->
  fromJson w3 data = Some (JObject obj) ->
  obj !! "cmd" = Some (JString "DISPATCH") ->
  obj !! "evt" = Some (JString "READY") ->
  header_size + QByteArray.size data < 2 ^ 31 ->
  exists d',
    run 1 [(w1, CallInitialize); (w2, SigConnected);
           (w3, SigReadyRead (encode_frame (Opcode_value Frame) data))]
        (Construct application_id) = Some d'
    /\ IsConnected d' = true
    /\ sock_writes (socket_ d') = [handshake_frame w2 (Construct application_id)]
    /\ nonce_ d' = 1
    /\ reconnect_delay_ d' = kReconnectMinDelayMs
    /\ reconnect_timer_ d' = None
    /\ read_buffer_ d' = [].
Proof.
  intros Hpeer Hparse Hcmd Hevt Hlen. unfold deaf in Hpeer.
  destruct (List.find (listening w1) (socket_paths w1)) as [path|] eqn:Hfound; [|done].
  cbn [run step]. unfold Initialize. cbn [Construct state_ State_eqb negb].
  rewrite (ConnectToDiscord_found w1 _ path Hfound) by done.
  cbn [socket_connected_to set_socket socket_ sock_state].
  set (d2 := OnConnected w2 _).
  assert (Hsock : sock_state (socket_ d2) = ConnectedState) by reflexivity.
  rewrite Hsock. unfold OnReadyRead.
  rewrite (ProcessIncomingData_frame w3 0 _ 1 data []);
    [|lia|done|by rewrite app_nil_r].
  change (dispatch w3 1 ?l ?x ?y) with (HandleMessage w3 x y).
  rewrite (HandleMessage_ready w3 data obj) by done.
  cbn [option_map snd State_eqb d2 OnConnected SendHandshake socket_write set_socket
       set_state set_reconnect_delay set_read_buffer state_].
  rewrite ProcessIncomingData_short by (by vm_compute).
  eexists. split; [reflexivity|]. by repeat split.
Qed.

Lemma session_is_established_witness :
  exists d',
    run 1 [(sample_world true false, CallInitialize); (sample_world true false, SigConnected);
           (sample_world true false, SigReadyRead (encode_frame (Opcode_value Frame) ready_text))]
        (Construct "strawberry") = Some d'
    /\ IsConnected d' = true
    /\ sock_writes (socket_ d')
       = [handshake_frame (sample_world true false) (Construct "strawberry")]
    /\ nonce_ d' = 1
    /\ reconnect_delay_ d' = kReconnectMinDelayMs
    /\ reconnect_timer_ d' = None
    /\ read_buffer_ d' = [].
Proof.
  apply (session_is_established (sample_world true false) (sample_world true false)
           (sample_world true false) "strawberry" ready_text ready_object).
  - unfold deaf. by vm_compute.
  - reflexivity.
  - by vm_compute.
  - by vm_compute.
  - by vm_compute.
Defined.

(** X24.  Back after a drop, by the timer alone: when the socket of an
    object in any state reports [disconnected()], the state is
    [Disconnected], what was buffered is discarded and the timer is armed
    with the stored delay; when the timer fires and a peer listens, and the
    socket reports [connected()], the handshake is sent again and the state
    is [SentHandshake] with the delay at the floor.  The nonce counter is
    not reset on the way. *)
Theorem connection_is_restored_after_a_drop
    (w1 w2 w3 : World) (fuel : nat) (d : DiscordRPC) :
  sock_state (socket_ d) <> UnconnectedState ->
  ~ deaf w2 ->
  exists d1 d3,
    step w1 fuel SigDisconnected d = Some d1
    /\ state_ d1 = Disconnected /\ IsConnected d1 = false
    /\ read_buffer_ d1 = []
    /\ reconnect_timer_ d1 = Some (reconnect_delay_ d)
    /\ run fuel [(w2, SigTimeout); (w3, SigConnected)] d1 = Some d3
    /\ state_ d3 = SentHandshake
    /\ reconnect_delay_ d3 = kReconnectMinDelayMs
    /\ reconnect_timer_ d3 = None
    /\ read_buffer_ d3 = []
    /\ nonce_ d3 = nonce_ d
    /\ sock_writes (socket_ d3) = sock_writes (socket_ d) ++ [handshake_frame w3 d].
Proof.
  intros Hopen Hpeer. unfold deaf in Hpeer.
  destruct (List.find (listening w2) (socket_paths w2)) as [path|] eqn:Hfound; [|done].
  set (d1 := OnDisconnected (socket_set_state UnconnectedState d)).
  assert (Hstep1 : step w1 fuel SigDisconnected d = Some d1).
  { cbn [step]. by destruct (sock_state (socket_ d)). }
  exists d1. eexists. split; [exact Hstep1|].
  split; [reflexivity|]. split; [reflexivity|]. split; [reflexivity|]. split; [reflexivity|].
  split.
  - cbn [run step]. cbn [d1 OnDisconnected ScheduleReconnect set_reconnect_timer
                          set_reconnect_delay reconnect_timer_].
    unfold OnReconnectTimer.
    rewrite (ConnectToDiscord_found w2 _ path Hfound) by reflexivity.
    cbn [socket_connected_to set_socket socket_ sock_state]. reflexivity.
  - by repeat split.
Qed.

Lemma connection_is_restored_after_a_drop_witness :
  let d := set_nonce 7 (set_read_buffer [x01; x00] (sample_open Connected)) in
  exists d1 d3,
    step (sample_world true false) 0 SigDisconnected d = Some d1
    /\ state_ d1 = Disconnected /\ IsConnected d1 = false
    /\ read_buffer_ d1 = []
    /\ reconnect_timer_ d1 = Some (reconnect_delay_ d)
    /\ run 0 [(sample_world true false, SigTimeout); (sample_world true false, SigConnected)] d1
       = Some d3
    /\ state_ d3 = SentHandshake
    /\ reconnect_delay_ d3 = kReconnectMinDelayMs
    /\ reconnect_timer_ d3 = None
    /\ read_buffer_ d3 = []
    /\ nonce_ d3 = nonce_ d
    /\ sock_writes (socket_ d3)
       = sock_writes (socket_ d) ++ [handshake_frame (sample_world true false) d].
Proof.
  cbv zeta.
  apply (connection_is_restored_after_a_drop (sample_world true false) (sample_world true false)
           (sample_world true false) 0
           (set_nonce 7 (set_read_buffer [x01; x00] (sample_open Connected)))).
  - discriminate.
  - unfold deaf. by vm_compute.
Defined.
